(** * ESDA backend: the items endpoint, the seed script and the CORS gate

    A shallow embedding of

    - [backend/src/routes/items.js]  (the zod schema [CreateItem] and the
      two handlers [r.get] and [r.post]),
    - [backend/prisma/seed.mjs]      ([main]),
    - [backend/src/index.js]         (the CORS origin callback, the body
      parser, the 404 handler and the path a request to [/api/items]
      takes through the middleware stack),
    - [frontend/app/items/page.tsx]  ([load] and [create] of the items
      page, run against this server),

    together with the parts of zod, Prisma and Express those files lean on.

    Conventions.  A JavaScript string is a Rocq [string]; [String.length]
    stands for the [.length] the validator reads.  A JavaScript value that
    may be [undefined] is an [option]; [None] is [undefined].  Objects are
    finite maps from property names to values.  An [async] function is a
    computation over the [Item] table that either resolves or rejects. *)

From stdpp Require Import gmap strings list sorting pretty.
From Stdlib Require Import ZArith.

Set Warnings "-register-all".

(** ** JavaScript values *)

(** Numbers only ever matter here as "not a string", so they are kept as
    integers.  [JDate] is a [Date] object, held as milliseconds since the
    epoch. *)

Inductive jsvalue : Type :=
  | JNull
  | JBool (b : bool)
  | JNum (n : Z)
  | JStr (s : string)
  | JDate (ms : Z)
  | JArr (l : list jsvalue)
  | JObj (m : gmap string jsvalue).

(** [a || b] on strings that may be undefined: the empty string and
    [undefined] are both falsy. *)
Definition falsy (o : option string) : bool :=
  match o with
  | None => true
  | Some s => bool_decide (s = "")
  end.

Definition js_or (o : option string) (d : string) : string :=
  match o with
  | Some s => if falsy o then d else s
  | None => d
  end.

(** A thrown [Error] object: constructor name and message.  [err_stack] is
    the head line of the [stack] property (the frames that follow it are
    left out). *)
Record JsError := { err_name : string; err_message : string }.

Definition err_stack (e : JsError) : string :=
  err_name e +:+ ": " +:+ err_message e.

(** ** zod: the fragment used by [CreateItem] *)

Module Zod.

Inductive ParsedType :=
  | PTundefined | PTnull | PTboolean | PTnumber | PTstring
  | PTdate | PTarray | PTobject.

Definition getParsedType (v : option jsvalue) : ParsedType :=
  match v with
  | None => PTundefined
  | Some JNull => PTnull
  | Some (JBool _) => PTboolean
  | Some (JNum _) => PTnumber
  | Some (JStr _) => PTstring
  | Some (JDate _) => PTdate
  | Some (JArr _) => PTarray
  | Some (JObj _) => PTobject
  end.

Definition type_name (t : ParsedType) : string :=
  match t with
  | PTundefined => "undefined" | PTnull => "null"
  | PTboolean => "boolean" | PTnumber => "number"
  | PTstring => "string" | PTdate => "date"
  | PTarray => "array" | PTobject => "object"
  end.

Inductive IssueCode :=
  | invalid_type (expected received : ParsedType)
  | too_small (minimum : nat)
  | too_big (maximum : nat).

Record ZodIssue := { code : IssueCode; path : list string }.

(** The default error map (zod 3 wording) for the three issue codes a
    string field can raise. *)
Definition message (c : IssueCode) : string :=
  match c with
  | invalid_type _ PTundefined => "Required"
  | invalid_type e r =>
      "Expected " +:+ type_name e +:+ ", received " +:+ type_name r
  | too_small n =>
      "String must contain at least " +:+ pretty n +:+ " character(s)"
  | too_big n =>
      "String must contain at most " +:+ pretty n +:+ " character(s)"
  end.

(** [z.string().min(a).max(b)] is a string schema carrying a list of
    checks; every check is run and its issue recorded. *)
Inductive StringCheck := check_min (n : nat) | check_max (n : nat).

Definition run_check (p : list string) (s : string) (c : StringCheck)
  : list ZodIssue :=
  match c with
  | check_min n =>
      if String.length s <? n
      then [ {| code := too_small n; path := p |} ] else []
  | check_max n =>
      if n <? String.length s
      then [ {| code := too_big n; path := p |} ] else []
  end.

Definition parse_string (checks : list StringCheck) (p : list string)
    (v : option jsvalue) : list ZodIssue + string :=
  match v with
  | Some (JStr s) =>
      match concat (run_check p s <$> checks) with
      | [] => inr s
      | iss => inl iss
      end
  | _ => inl [ {| code := invalid_type PTstring (getParsedType v);
                  path := p |} ]
  end.

(** [z.object(shape)] with string-typed fields, in the default "strip"
    mode: the output is rebuilt from the keys of the shape, so keys of
    the input that the shape does not name are dropped. *)
Definition Shape := list (string * list StringCheck).

Fixpoint parse_fields (shape : Shape) (m : gmap string jsvalue)
  : list ZodIssue * gmap string jsvalue :=
  match shape with
  | [] => ([], ∅)
  | (k, checks) :: rest =>
      let '(iss, out) := parse_fields rest m in
      match parse_string checks [k] (m !! k) with
      | inl iss' => (iss' ++ iss, out)
      | inr s => (iss, <[k := JStr s]> out)
      end
  end.

Inductive SafeParseReturn :=
  | success (data : gmap string jsvalue)
  | failure (error : list ZodIssue).

Definition safeParse (shape : Shape) (v : option jsvalue)
  : SafeParseReturn :=
  match v with
  | Some (JObj m) =>
      match parse_fields shape m with
      | ([], out) => success out
      | (iss, _) => failure iss
      end
  | _ => failure [ {| code := invalid_type PTobject (getParsedType v);
                      path := [] |} ]
  end.

(** [error.format()]: a tree of [{_errors: [...]}] nodes that mirrors
    the paths of the issues. *)
Definition errors_of (o : gmap string jsvalue) : list jsvalue :=
  match o !! "_errors" with
  | Some (JArr l) => l
  | _ => []
  end.

Definition empty_node : gmap string jsvalue := {[ "_errors" := JArr [] ]}.

Fixpoint add_issue (msg : string) (p : list string)
    (o : gmap string jsvalue) : gmap string jsvalue :=
  match p with
  | [] => <["_errors" := JArr (errors_of o ++ [JStr msg])]> o
  | k :: p' =>
      let child := match o !! k with
                   | Some (JObj c) => c
                   | _ => empty_node
                   end in
      <[k := JObj (add_issue msg p' child)]> o
  end.

Definition format (error : list ZodIssue) : jsvalue :=
  JObj (foldl (λ o i, add_issue (message (code i)) (path i) o)
              empty_node error).

End Zod.

(** ** Asynchronous computations over the [Item] table *)

(** Modelled from the spec: [prisma/schema.prisma] is not among the
    sources.  The [Item] model has the three columns of the data model
    ([id], [title], [createdAt]); [id] is the primary key and is filled by
    a generator when the insert does not supply it, [createdAt] defaults
    to the time of the insert. *)
Record Item := { id : string; title : string; createdAt : Z }.

Global Instance Item_eq_dec : EqDecision Item.
Proof. solve_decision. Defined.

(** What the outside world contributes to one run of a handler or of the
    seed script: whether the database answers, the identifier the
    generator hands out, the reading of the clock, and the verdict of the
    rate limiter for the caller's address. *)
Record World :=
  { db_up : bool; gen_id : string; now : Z; over_limit : bool }.

Inductive settled (A : Type) : Type :=
  | Resolved (a : A)
  | Rejected (e : JsError).
Arguments Resolved {A} a.
Arguments Rejected {A} e.

(** A promise-returning function: it reads and writes the table (rows in
    insertion order) and settles. *)
Definition Async (A : Type) : Type := list Item → settled A * list Item.

Definition resolve {A} (a : A) : Async A := λ db, (Resolved a, db).
Definition reject {A} (e : JsError) : Async A := λ db, (Rejected e, db).

(** [await]: a rejection of the awaited promise is rethrown, so the rest
    of the function body does not run. *)
Definition await {A B} (m : Async A) (k : A → Async B) : Async B :=
  λ db, match m db with
        | (Resolved a, db') => k a db'
        | (Rejected e, db') => (Rejected e, db')
        end.

Notation "'let*' x ':=' m 'in' k" := (await m (λ x, k))
  (at level 10, x name, m at level 100, k at level 200, only parsing).

(** ** Prisma: the three queries the repository issues on [item] *)

Module Prisma.

(** The errors the client raises (messages abridged). *)

Definition unreachable : JsError :=
  {| err_name := "PrismaClientInitializationError";
     err_message := "Can't reach database server" |}.

Definition unique_violation : JsError :=
  {| err_name := "PrismaClientKnownRequestError";
     err_message := "Unique constraint failed on the fields: (`id`)" |}.

Definition invalid_arguments : JsError :=
  {| err_name := "PrismaClientValidationError";
     err_message := "Invalid `prisma.item.create()` invocation" |}.

Definition refused_value : JsError :=
  {| err_name := "PrismaClientUnknownRequestError";
     err_message := "invalid byte sequence for encoding UTF8: 0x00" |}.

(** Modelled from the spec: the table lives in PostgreSQL (the planning
    document of the repository), whose text columns hold no U+0000; an
    insert of a title with that character is refused by the database. *)
Fixpoint has_nul (s : string) : bool :=
  match s with
  | EmptyString => false
  | String a s' => bool_decide (a = Ascii.zero) || has_nul s'
  end.

Inductive SortOrder := asc | desc.

(** [ORDER BY createdAt]: the relation "may come before". *)
Definition before (o : SortOrder) (a b : Item) : Prop :=
  match o with
  | asc => (createdAt a ≤ createdAt b)%Z
  | desc => (createdAt b ≤ createdAt a)%Z
  end.

Global Instance before_dec o a b : Decision (before o a b).
Proof. destruct o; simpl; apply _. Defined.

Global Instance before_total o : Total (before o).
Proof. intros a b; destruct o; simpl; lia. Qed.

Global Instance before_trans o : Transitive (before o).
Proof. intros a b c; destruct o; simpl; lia. Qed.

(** Every query first needs the connection. *)
Definition connected {A} (w : World) (m : Async A) : Async A :=
  if db_up w then m else reject unreachable.

(** [prisma.item.findMany({ orderBy: { createdAt: o } })].  The database
    fixes no order among rows of equal [createdAt]; here they come as the
    merge sort leaves them. *)
Definition findMany (w : World) (o : SortOrder) : Async (list Item) :=
  connected w (λ db, (Resolved (merge_sort (before o) db), db)).

(** [prisma.item.count()] *)
Definition count (w : World) : Async nat :=
  connected w (λ db, (Resolved (length db), db)).

(** The [data] argument of [create], once checked against the model:
    [title] is required, the two columns with a default are optional,
    and a key that names no column is refused. *)
Record ItemCreateInput :=
  { ci_id : option string; ci_title : string; ci_createdAt : option Z }.

Definition columns : gset string := {[ "id"; "title"; "createdAt" ]}.

Definition create_input (data : gmap string jsvalue)
  : option ItemCreateInput :=
  if bool_decide (dom data ⊆ columns) then
    match data !! "title", data !! "id", data !! "createdAt" with
    | Some (JStr t), None, None =>
        Some {| ci_id := None; ci_title := t; ci_createdAt := None |}
    | Some (JStr t), Some (JStr i), None =>
        Some {| ci_id := Some i; ci_title := t; ci_createdAt := None |}
    | Some (JStr t), None, Some (JDate d) =>
        Some {| ci_id := None; ci_title := t; ci_createdAt := Some d |}
    | Some (JStr t), Some (JStr i), Some (JDate d) =>
        Some {| ci_id := Some i; ci_title := t; ci_createdAt := Some d |}
    | _, _, _ => None
    end
  else None.

(** [prisma.item.create({ data })]: the arguments are checked, the row
    is completed with the defaults, and the insert is refused when the
    title cannot be stored or the primary key is already taken.  The
    stored row is returned. *)
Definition create (w : World) (data : gmap string jsvalue) : Async Item :=
  match create_input data with
  | None => reject invalid_arguments
  | Some inp =>
      connected w (λ db,
        let row := {| id := default (gen_id w) (ci_id inp);
                      title := ci_title inp;
                      createdAt := default (now w) (ci_createdAt inp) |} in
        if has_nul (title row) then (Rejected refused_value, db)
        else if bool_decide (id row ∈ id <$> db)
        then (Rejected unique_violation, db)
        else (Resolved row, db ++ [row]))
  end.

End Prisma.

(** ** Express responses *)

Inductive Body :=
  | json (v : jsvalue)          (* [res.json(v)] *)
  | text (s : string)           (* [res.send(s)] *)
  | error_page (msg : string).  (* the built-in error document around [msg] *)

Record Response := { status : nat; body : Body }.

(** A stored row as the JavaScript object Prisma returns. *)
Definition item_to_js (it : Item) : jsvalue :=
  JObj (<["id" := JStr (id it)]>
        (<["title" := JStr (title it)]>
         {[ "createdAt" := JDate (createdAt it) ]})).

(** ** [routes/items.js] *)

(** [z.object({ title: z.string().min(1).max(200) })] *)
Definition CreateItem : Zod.Shape :=
  [ ("title", [Zod.check_min 1; Zod.check_max 200]) ].

(** [r.get("/", ...)] *)
Definition r_get (w : World) : Async Response :=
  let* items := Prisma.findMany w Prisma.desc in
  resolve {| status := 200; body := json (JArr (item_to_js <$> items)) |}.

(** [r.post("/", ...)]: [req_body] is [req.body]. *)
Definition r_post (w : World) (req_body : option jsvalue) : Async Response :=
  match Zod.safeParse CreateItem req_body with
  | Zod.failure error =>
      resolve {| status := 400; body := json (Zod.format error) |}
  | Zod.success data =>
      let* item := Prisma.create w data in
      resolve {| status := 201; body := json (item_to_js item) |}
  end.

(** ** [prisma/seed.mjs] *)

Definition welcome : string := "Welcome to ESDA".

(** [main]: resolves to the line it logs. *)
Definition main (w : World) : Async string :=
  let* count := Prisma.count w in
  if count =? 0 then
    let* _ := Prisma.create w {[ "title" := JStr welcome ]} in
    resolve "Seeded 1 item"
  else
    resolve ("Items already present: " +:+ pretty count +:+ " (no new seed)").

(** The script around [main]: exit code and the table it leaves. *)
Definition seed (w : World) (db : list Item) : nat * list Item :=
  match main w db with
  | (Resolved _, db') => (0, db')
  | (Rejected _, db') => (1, db')
  end.

(** ** [src/index.js] *)

(** [process.env], as far as the server reads it. *)
Record ProcessEnv :=
  { FRONTEND_ORIGIN : option string; NODE_ENV : option string }.

(** [[process.env.FRONTEND_ORIGIN || "http://localhost:3000"]] *)
Definition allowedOrigins (env : ProcessEnv) : list string :=
  [ js_or (FRONTEND_ORIGIN env) "http://localhost:3000" ].

Definition not_allowed : JsError :=
  {| err_name := "Error"; err_message := "Not allowed by CORS" |}.

(** The [origin(origin, cb)] option handed to [cors]: [Resolved true] is
    [cb(null, true)], [Rejected e] is [cb(e)]. *)
Definition cors_origin (env : ProcessEnv) (origin : option string)
  : settled bool :=
  if falsy origin then Resolved true
  else if bool_decide (origin ∈ Some <$> allowedOrigins env)
       then Resolved true
       else Rejected not_allowed.

(** The 404 handler, registered last. *)
Definition not_found : Response :=
  {| status := 404;
     body := json (JObj {[ "message" := JStr "Route not found" ]}) |}.

(** The repository registers no error-handling middleware, so an error
    passed to [next] (by [cors], or by Express 5 -- the version the
    repository's planning document names -- when the promise of an async
    handler rejects) reaches Express's built-in handler.  None of the
    errors raised here carries a [status], so it answers 500; the page
    shows the status text when [app.get("env")], that is
    [process.env.NODE_ENV || "development"], is [production], and
    [err.stack] otherwise. *)
Definition default_error_handler (env : ProcessEnv) (e : JsError)
  : Response :=
  {| status := 500;
     body := error_page
               (if bool_decide (js_or (NODE_ENV env) "development" = "production")
                then "Internal Server Error"
                else err_stack e) |}.

Definition too_many_requests : Response :=
  {| status := 429;
     body := text "Too many requests, please try again later." |}.

(** The request methods a route can be registered for.  [HEAD] and
    [OPTIONS], which Express and [cors] answer on their own, come in with
    [Verb] below. *)
Inductive Method := GET | POST | PUT | PATCH | DELETE.

(** A request whose path is [/api/items], after [express.json()] has
    parsed its body. *)
Record Request :=
  { method : Method; origin : option string; req_body : option jsvalue }.

(** The router of [routes/items.js]: a method it has no route for falls
    through to the next middleware. *)
Definition itemsRoutes (w : World) (rq : Request) : option (Async Response) :=
  match method rq with
  | GET => Some (r_get w)
  | POST => Some (r_post w (req_body rq))
  | _ => None
  end.

(** The way of such a request through the stack: [cors], the rate
    limiter, the router mounted at [/api/items], the 404 handler, and the
    built-in error handler for whatever was raised on the way.  This is
    the stack as seen by a request with one of the five methods above
    whose body the parser let through; [app_request] below starts from
    the request as it arrives. *)
Definition app_handle (env : ProcessEnv) (w : World) (rq : Request)
    (db : list Item) : Response * list Item :=
  match cors_origin env (origin rq) with
  | Rejected e => (default_error_handler env e, db)
  | Resolved _ =>
      if over_limit w then (too_many_requests, db)
      else match itemsRoutes w rq with
           | None => (not_found, db)
           | Some handler =>
               match handler db with
               | (Resolved res, db') => (res, db')
               | (Rejected e, db') => (default_error_handler env e, db')
               end
           end
  end.

(** *** The whole stack, from the request as it arrives *)

(** What [express.json()] finds in a request: no entity to parse (no
    body, or a content type other than JSON); JSON text within the 100kb
    limit that parses to a value; a body over the limit; a body in a
    charset or content encoding the parser does not support; or a body
    that cannot be read or does not parse ([e] is the error raised). *)
Inductive Entity :=
  | no_entity
  | json_entity (v : jsvalue)
  | oversize_entity
  | unsupported_entity (e : JsError)
  | broken_entity (e : JsError).

(** The errors the body parser raises; unlike the errors above they
    carry a [status], which the built-in error handler answers with. *)
Inductive EntityFault :=
  | entity_too_large
  | entity_unsupported (e : JsError)
  | entity_bad (e : JsError).

Definition fault_status (f : EntityFault) : nat :=
  match f with
  | entity_too_large => 413
  | entity_unsupported _ => 415
  | entity_bad _ => 400
  end.

Definition fault_text (f : EntityFault) : string :=
  match f with
  | entity_too_large => "Payload Too Large"
  | entity_unsupported _ => "Unsupported Media Type"
  | entity_bad _ => "Bad Request"
  end.

Definition fault_error (f : EntityFault) : JsError :=
  match f with
  | entity_too_large =>
      {| err_name := "PayloadTooLargeError";
         err_message := "request entity too large" |}
  | entity_unsupported e => e
  | entity_bad e => e
  end.

(** The error of the strict mode for JSON text that is neither an object
    nor an array (message abridged). *)
Definition not_strict : JsError :=
  {| err_name := "SyntaxError"; err_message := "Unexpected token" |}.

(** [express.json()], in its default strict mode: only objects and arrays
    are let through; without an entity [req.body] stays undefined. *)
Definition express_json (e : Entity) : EntityFault + option jsvalue :=
  match e with
  | no_entity => inr None
  | json_entity (JObj m) => inr (Some (JObj m))
  | json_entity (JArr l) => inr (Some (JArr l))
  | json_entity _ => inl (entity_bad not_strict)
  | oversize_entity => inl entity_too_large
  | unsupported_entity e => inl (entity_unsupported e)
  | broken_entity e => inl (entity_bad e)
  end.

(** The built-in error handler on an error that carries a status. *)
Definition fault_handler (env : ProcessEnv) (f : EntityFault) : Response :=
  {| status := fault_status f;
     body := error_page
               (if bool_decide (js_or (NODE_ENV env) "development" = "production")
                then fault_text f
                else err_stack (fault_error f)) |}.

(** The request method as it arrives. *)
Inductive Verb := routed (m : Method) | HEAD | OPTIONS.

Record Incoming :=
  { verb : Verb; from : option string; entity : Entity }.

(** A [HEAD] request is routed like a [GET]; its answer is sent without
    a body. *)
Definition route_method (v : Verb) : Method :=
  match v with
  | routed m => m
  | _ => GET
  end.

Definition sent_for (v : Verb) (res : Response) : Response :=
  match v with
  | HEAD => {| status := status res; body := text "" |}
  | _ => res
  end.

(** The answer [cors] itself gives to an [OPTIONS] request it admits. *)
Definition preflight : Response := {| status := 204; body := text "" |}.

(** The middleware of [index.js] in the order it is registered: [cors]
    (which also answers [OPTIONS]), the rate limiter, [express.json()],
    the router mounted at [/api/items], the 404 handler, and the built-in
    error handler for whatever was raised on the way. *)
Definition app_request (env : ProcessEnv) (w : World) (rq : Incoming)
    (db : list Item) : Response * list Item :=
  match cors_origin env (from rq) with
  | Rejected e => (sent_for (verb rq) (default_error_handler env e), db)
  | Resolved _ =>
      match verb rq with
      | OPTIONS => (preflight, db)
      | _ =>
          if over_limit w then (sent_for (verb rq) too_many_requests, db)
          else match express_json (entity rq) with
               | inl f => (sent_for (verb rq) (fault_handler env f), db)
               | inr b =>
                   match itemsRoutes w {| method := route_method (verb rq);
                                          origin := from rq;
                                          req_body := b |} with
                   | None => (sent_for (verb rq) not_found, db)
                   | Some handler =>
                       match handler db with
                       | (Resolved res, db') => (sent_for (verb rq) res, db')
                       | (Rejected e, db') =>
                           (sent_for (verb rq) (default_error_handler env e),
                            db')
                       end
                   end
               end
      end
  end.

(** ** [frontend/app/items/page.tsx] *)

(** White space as [String.prototype.trim] sees it, among the code units
    a [string] here can hold: tab, line feed, vertical tab, form feed,
    carriage return, space and no-break space. *)
Definition js_space (a : Ascii.ascii) : bool :=
  bool_decide (Ascii.nat_of_ascii a ∈ [9; 10; 11; 12; 13; 32; 160]).

Fixpoint trimStart (s : string) : string :=
  match s with
  | String a s' => if js_space a then trimStart s' else s
  | EmptyString => EmptyString
  end.

Definition trim (s : string) : string :=
  String.rev (trimStart (String.rev (trimStart s))).

Module ItemsPage.

(** The three [useState] cells of the component.  [items] is whatever
    [res.json()] last gave; a [Date] the server put in the answer travels
    as its ISO string and is kept here as the date it denotes. *)
Record State := { items : jsvalue; title : string; loading : bool }.

(** What the user gets to see besides the page: [alert] boxes and lines
    on the console. *)
Inductive Dialog := alert (msg : string) | console_error (msg : string).

(** A call of [fetch]: the method and the value whose [JSON.stringify] is
    the body.  The call either throws (no answer could be read) or gives
    a response; on the way the request may have changed the table. *)
Record FetchInit := { fetch_method : Method; fetch_body : option jsvalue }.

Inductive FetchResult := Threw | Answered (res : Response).

Definition Network : Type :=
  FetchInit → list Item → FetchResult * list Item.

(** [res.ok] *)
Definition ok (res : Response) : bool :=
  (200 <=? status res) && (status res <=? 299).

(** [res.json()]: a JSON body is parsed; a text or HTML body is taken not
    to parse, which makes the call throw. *)
Definition res_json (res : Response) : option jsvalue :=
  match body res with
  | json v => Some v
  | _ => None
  end.

Definition set_loading (b : bool) (st : State) : State :=
  {| items := items st; title := title st; loading := b |}.

(** [load]: the state once the function has run to its end, what it
    showed, and the table the request left. *)
Definition load (get : Network) (st : State) (db : list Item)
  : State * list Dialog * list Item :=
  match get {| fetch_method := GET; fetch_body := None |} db with
  | (Threw, db') =>
      (set_loading false st, [console_error "Failed to load items:"], db')
  | (Answered res, db') =>
      if ok res then
        match res_json res with
        | Some v =>
            ({| items := v; title := title st; loading := false |}, [], db')
        | None =>
            (set_loading false st, [console_error "Failed to load items:"], db')
        end
      else (set_loading false st, [], db')
  end.

(** [create]: [post] is the network as the POST meets it, [get] as the
    reload started after a good answer meets it.  The result is the state
    once that reload, too, has settled. *)
Definition create (post get : Network) (st : State) (db : list Item)
  : State * list Dialog * list Item :=
  if bool_decide (trim (title st) = "") then (st, [], db)
  else
    match post {| fetch_method := POST;
                  fetch_body := Some (JObj {[ "title" := JStr (title st) ]}) |}
               db with
    | (Threw, db') =>
        (st, [console_error "Failed to create item:";
              alert "Failed to create item"], db')
    | (Answered res, db') =>
        if ok res
        then load get {| items := items st; title := ""; loading := loading st |} db'
        else (st, [alert "Validation failed"], db')
    end.

End ItemsPage.

(** The network between the page, served from [page_origin], and this
    server in world [w]: the browser lets the script read an answer only
    when the CORS gate let the request pass; otherwise [fetch] throws and
    no route has run. *)
Definition browser_fetch (env : ProcessEnv) (w : World)
    (page_origin : option string) : ItemsPage.Network :=
  λ init db,
    match cors_origin env page_origin with
    | Rejected _ => (ItemsPage.Threw, db)
    | Resolved _ =>
        let '(res, db') :=
          app_handle env w {| method := ItemsPage.fetch_method init;
                              origin := page_origin;
                              req_body := ItemsPage.fetch_body init |} db in
        (ItemsPage.Answered res, db')
    end.

(** * Properties *)

(** ** The validator *)

Definition title_ok (t : string) : Prop :=
  1 ≤ String.length t ∧ String.length t ≤ 200.

(** The four ways in which the [title] property of a body can be wrong. *)
Inductive bad_title : option jsvalue → Prop :=
  | title_missing : bad_title None
  | title_not_a_string v : (∀ s, v ≠ JStr s) → bad_title (Some v)
  | title_empty : bad_title (Some (JStr ""))
  | title_too_long s : 200 < String.length s → bad_title (Some (JStr s)).

Definition title_issue (c : Zod.IssueCode) : Zod.ZodIssue :=
  {| Zod.code := c; Zod.path := ["title"] |}.

(** A node of a formatted error that carries exactly the given messages. *)
Definition node (msgs : list string) : gmap string jsvalue :=
  {[ "_errors" := JArr (JStr <$> msgs) ]}.

(** The title bound as an invariant of the table. *)
Definition title_bound (db : list Item) : Prop :=
  Forall (λ it, title_ok (title it)) db.

(** Newest first: the [createdAt] values never increase along the list. *)
Definition newest_first (l : list Item) : Prop :=
  StronglySorted (λ a b : Z, (b ≤ a)%Z) (createdAt <$> l).

(** The operations that reach the table: the two routes and the seed
    script.  [run] is the table an operation leaves behind. *)
Inductive Op :=
  | op_get
  | op_post (req_body : option jsvalue)
  | op_seed.

Definition run (db : list Item) (step : World * Op) : list Item :=
  match step with
  | (w, op_get) => (r_get w db).2
  | (w, op_post b) => (r_post w b db).2
  | (w, op_seed) => (seed w db).2
  end.

Definition run_all (trace : list (World * Op)) : list Item :=
  foldl run [] trace.

(** The one origin the server is configured for. *)
Definition configured_origin (env : ProcessEnv) : string :=
  js_or (FRONTEND_ORIGIN env) "http://localhost:3000".

(** The answer that tells nothing about the failure behind it. *)
Definition generic_500 : Response :=
  {| status := 500; body := error_page "Internal Server Error" |}.

(** The row an insert of [t] produces in world [w] from the defaults. *)
Definition new_item (w : World) (t : string) : Item :=
  {| id := gen_id w; title := t; createdAt := now w |}.

Definition fresh (w : World) (db : list Item) : Prop :=
  gen_id w ∉ id <$> db.

(** A title the database can hold: one without U+0000. *)
Definition storable (t : string) : Prop := Prisma.has_nul t = false.

(** The shortest valid title the database refuses. *)
Definition nul_title : string := String Ascii.zero "".

(** The [title] property of a request body; a body that is no object has
    none. *)
Definition title_of (rb : option jsvalue) : option jsvalue :=
  match rb with
  | Some (JObj m) => m !! "title"
  | _ => None
  end.

(** The 400 answer whose only message sits at the root. *)
Definition rejected_root (msg : string) : Response :=
  {| status := 400;
     body := json (JObj {[ "_errors" := JArr [JStr msg] ]}) |}.

(** The answers of the two routes. *)
Definition created (it : Item) : Response :=
  {| status := 201; body := json (item_to_js it) |}.

Definition listed (l : list Item) : Response :=
  {| status := 200; body := json (JArr (item_to_js <$> l)) |}.

Definition bad_request (error : list Zod.ZodIssue) : Response :=
  {| status := 400; body := json (Zod.format error) |}.

(** The 400 answer whose only message sits under [title]. *)
Definition rejected_title (msg : string) : Response :=
  {| status := 400;
     body := json (JObj (<["title" := JObj (node [msg])]> (node []))) |}.

(** Sample worlds, environments and requests for the worked examples. *)
Definition w_a : World :=
  {| db_up := true; gen_id := "ckx0001"; now := 1700000000000;
     over_limit := false |}.

Definition w_b : World :=
  {| db_up := true; gen_id := "ckx0002"; now := 1700000060000;
     over_limit := false |}.

Definition w_d : World :=
  {| db_up := true; gen_id := "ckx0005"; now := 1700000120000;
     over_limit := false |}.

Definition w_down : World :=
  {| db_up := false; gen_id := "ckx0004"; now := 1700000090000;
     over_limit := false |}.

Definition env_default : ProcessEnv :=
  {| FRONTEND_ORIGIN := None; NODE_ENV := None |}.

Definition env_production : ProcessEnv :=
  {| FRONTEND_ORIGIN := Some "https://esda.example";
     NODE_ENV := Some "production" |}.


Definition local_delete : Request :=
  {| method := DELETE; origin := Some "http://localhost:3000";
     req_body := None |}.

Definition local_post (t : string) : Request :=
  {| method := POST; origin := Some "http://localhost:3000";
     req_body := Some (JObj {[ "title" := JStr t ]}) |}.

Definition get_items : Request :=
  {| method := GET; origin := None; req_body := None |}.

Definition body_of (t : string) : option jsvalue :=
  Some (JObj {[ "title" := JStr t ]}).

(** Three rows stored out of time order. *)
Definition sample_table : list Item :=
  [ {| id := "ckx0001"; title := "first"; createdAt := 1700000000000 |};
    {| id := "ckx0002"; title := "third"; createdAt := 1700000060000 |};
    {| id := "ckx0003"; title := "second"; createdAt := 1700000030000 |} ].

(** A body the validator lets through, with the title it carries. *)
Definition accepted (rb : option jsvalue) (t : string) : Prop :=
  ∃ m, rb = Some (JObj m) ∧ m !! "title" = Some (JStr t) ∧ title_ok t.

(** A request that got past the CORS gate and the rate limiter. *)
Definition admitted (env : ProcessEnv) (w : World) (rq : Request) : Prop :=
  cors_origin env (origin rq) = Resolved true ∧ over_limit w = false.

(** The answers [app_handle] can give, case by case. *)
Inductive served (env : ProcessEnv) (w : World) (rq : Request)
    (db : list Item) : Response * list Item → Prop :=
  | served_refused :
      cors_origin env (origin rq) = Rejected not_allowed →
      served env w rq db (default_error_handler env not_allowed, db)
  | served_limited :
      cors_origin env (origin rq) = Resolved true → over_limit w = true →
      served env w rq db (too_many_requests, db)
  | served_unrouted :
      admitted env w rq → method rq ≠ GET → method rq ≠ POST →
      served env w rq db (not_found, db)
  | served_listed :
      admitted env w rq → method rq = GET → db_up w = true →
      served env w rq db
        (listed (merge_sort (Prisma.before Prisma.desc) db), db)
  | served_list_failed :
      admitted env w rq → method rq = GET → db_up w = false →
      served env w rq db (default_error_handler env Prisma.unreachable, db)
  | served_invalid error :
      admitted env w rq → method rq = POST →
      Zod.safeParse CreateItem (req_body rq) = Zod.failure error →
      served env w rq db (bad_request error, db)
  | served_insert_failed t :
      admitted env w rq → method rq = POST → accepted (req_body rq) t →
      db_up w = false →
      served env w rq db (default_error_handler env Prisma.unreachable, db)
  | served_value_refused t :
      admitted env w rq → method rq = POST → accepted (req_body rq) t →
      db_up w = true → ¬ storable t →
      served env w rq db
        (default_error_handler env Prisma.refused_value, db)
  | served_id_taken t :
      admitted env w rq → method rq = POST → accepted (req_body rq) t →
      db_up w = true → storable t → ¬ fresh w db →
      served env w rq db
        (default_error_handler env Prisma.unique_violation, db)
  | served_created t :
      admitted env w rq → method rq = POST → accepted (req_body rq) t →
      db_up w = true → storable t → fresh w db →
      served env w rq db (created (new_item w t), db ++ [new_item w t]).

(** An arriving request with one of the five routed methods that
    [cors], the rate limiter and the body parser let through with body
    [b]. *)
Definition let_through (env : ProcessEnv) (w : World) (rq : Incoming)
    (b : option jsvalue) : Prop :=
  cors_origin env (from rq) = Resolved true ∧ over_limit w = false
  ∧ express_json (entity rq) = inr b.

(** The request [express.json()] hands on to the routes. *)
Definition parsed (rq : Incoming) (b : option jsvalue) : Request :=
  {| method := route_method (verb rq); origin := from rq; req_body := b |}.

(** Sample arriving requests. *)
Definition arriving (v : Verb) (e : Entity) : Incoming :=
  {| verb := v; from := Some "http://localhost:3000"; entity := e |}.

(** Primary keys are pairwise distinct. *)
Definition ids_unique (db : list Item) : Prop := NoDup (id <$> db).

(** A dialog that is no [alert] box. *)
Definition no_alert (d : ItemsPage.Dialog) : Prop :=
  ∀ msg, d ≠ ItemsPage.alert msg.

(** The page as it is first rendered, and a page with a typed title. *)
Definition page_typed (t : string) : ItemsPage.State :=
  {| ItemsPage.items := JArr []; ItemsPage.title := t;
     ItemsPage.loading := false |}.


(** Settles a decidable side condition on concrete data by running its
    decision procedure. *)
Ltac by_evaluation :=
  unfold fresh; simpl; refine (bool_decide_unpack _ _); vm_compute; exact I.

Section validator.
Import Zod.

Lemma parse_title_valid t :
  title_ok t →
  parse_string [check_min 1; check_max 200] ["title"] (Some (JStr t)) = inr t.
Proof.
  intros [Hlo Hhi]. unfold parse_string. simpl.
  destruct (String.length t <? 1) eqn:E1; [apply Nat.ltb_lt in E1; lia|].
  destruct (200 <? String.length t) eqn:E2; [apply Nat.ltb_lt in E2; lia|].
  reflexivity.
Qed.

Lemma parse_title_bad v :
  bad_title v →
  ∃ c, parse_string [check_min 1; check_max 200] ["title"] v
         = inl [title_issue c]
       ∧ (v = None → c = invalid_type PTstring PTundefined).
Proof.
  destruct 1 as [|v Hv| |s Hs].
  - eexists; split; [reflexivity|done].
  - exists (invalid_type PTstring (getParsedType (Some v))). split; [|done].
    destruct v; try reflexivity. by destruct (Hv s).
  - exists (too_small 1). split; [reflexivity|done].
  - exists (too_big 200). split; [|done].
    unfold parse_string. simpl.
    destruct (String.length s <? 1) eqn:E1; [apply Nat.ltb_lt in E1; lia|].
    destruct (200 <? String.length s) eqn:E2; [reflexivity|].
    apply Nat.ltb_ge in E2; lia.
Qed.

Lemma parse_title_inv v t :
  parse_string [check_min 1; check_max 200] ["title"] v = inr t →
  v = Some (JStr t) ∧ title_ok t.
Proof.
  unfold parse_string. destruct v as [[]|]; try discriminate. simpl.
  destruct (String.length s <? 1) eqn:E1; [discriminate|].
  destruct (200 <? String.length s) eqn:E2; [discriminate|].
  intros [= ->]. apply Nat.ltb_ge in E1, E2. by repeat split.
Qed.

Lemma parse_title_issues v iss :
  parse_string [check_min 1; check_max 200] ["title"] v = inl iss →
  iss ≠ [].
Proof.
  unfold parse_string. destruct v as [[]|]; try (intros [= <-]; discriminate).
  simpl. destruct (_ <? 1), (200 <? _); simpl; intros [= <-]; discriminate.
Qed.

Lemma safeParse_valid m t :
  m !! "title" = Some (JStr t) → title_ok t →
  safeParse CreateItem (Some (JObj m)) = success {[ "title" := JStr t ]}.
Proof.
  intros Hm Ht. unfold safeParse, CreateItem, parse_fields.
  rewrite Hm, (parse_title_valid _ Ht). by rewrite insert_empty.
Qed.

Lemma safeParse_bad m :
  bad_title (m !! "title") →
  ∃ c, safeParse CreateItem (Some (JObj m)) = failure [title_issue c]
       ∧ (m !! "title" = None → c = invalid_type PTstring PTundefined).
Proof.
  intros Hbad. destruct (parse_title_bad _ Hbad) as (c & Hc & Hreq).
  exists c. split; [|done].
  unfold safeParse, CreateItem, parse_fields. by rewrite Hc.
Qed.

Lemma safeParse_success_inv v data :
  safeParse CreateItem v = success data →
  ∃ m t, v = Some (JObj m) ∧ m !! "title" = Some (JStr t)
         ∧ title_ok t ∧ data = {[ "title" := JStr t ]}.
Proof.
  unfold safeParse. destruct v as [[]|]; try discriminate.
  unfold CreateItem, parse_fields.
  destruct (parse_string _ _ _) as [iss|t] eqn:E.
  - apply parse_title_issues in E. rewrite app_nil_r.
    destruct iss; [done|discriminate].
  - apply parse_title_inv in E as [E Ht]. intros [= <-].
    exists m, t. by rewrite insert_empty.
Qed.

Lemma format_title_issue c :
  format [title_issue c]
  = JObj (<["title" := JObj (node [message c])]> (node [])).
Proof. reflexivity. Qed.

Lemma format_root_issue c :
  format [ {| code := c; path := [] |} ] = JObj (node [message c]).
Proof. reflexivity. Qed.

End validator.

(** ** The store *)

Section store.

Lemma create_input_title t :
  Prisma.create_input {[ "title" := JStr t ]}
  = Some {| Prisma.ci_id := None; Prisma.ci_title := t;
            Prisma.ci_createdAt := None |}.
Proof. reflexivity. Qed.

Lemma create_title w t db :
  db_up w = true → storable t → fresh w db →
  Prisma.create w {[ "title" := JStr t ]} db
  = (Resolved (new_item w t), db ++ [new_item w t]).
Proof.
  intros Hup Hst Hfresh. unfold Prisma.create. rewrite create_input_title.
  unfold Prisma.connected. rewrite Hup. simpl. rewrite Hst.
  rewrite bool_decide_eq_false_2; done.
Qed.

Lemma create_title_down w t db :
  db_up w = false →
  Prisma.create w {[ "title" := JStr t ]} db
  = (Rejected Prisma.unreachable, db).
Proof.
  intros Hup. unfold Prisma.create. rewrite create_input_title.
  unfold Prisma.connected. by rewrite Hup.
Qed.

Lemma create_title_refused w t db :
  db_up w = true → ¬ storable t →
  Prisma.create w {[ "title" := JStr t ]} db
  = (Rejected Prisma.refused_value, db).
Proof.
  intros Hup Hst. unfold Prisma.create. rewrite create_input_title.
  unfold Prisma.connected. rewrite Hup. simpl.
  unfold storable in Hst. by destruct (Prisma.has_nul t).
Qed.

Lemma create_title_taken w t db :
  db_up w = true → storable t → ¬ fresh w db →
  Prisma.create w {[ "title" := JStr t ]} db
  = (Rejected Prisma.unique_violation, db).
Proof.
  intros Hup Hst Htaken. unfold Prisma.create. rewrite create_input_title.
  unfold Prisma.connected. rewrite Hup. simpl. rewrite Hst.
  rewrite bool_decide_eq_true_2; [done|].
  unfold fresh in Htaken. by apply dec_stable.
Qed.

(** The four ways an insert of a bare title can end. *)
Lemma create_title_outcome w t db :
  (db_up w = false
   ∧ Prisma.create w {[ "title" := JStr t ]} db
     = (Rejected Prisma.unreachable, db))
  ∨ (db_up w = true ∧ ¬ storable t
     ∧ Prisma.create w {[ "title" := JStr t ]} db
       = (Rejected Prisma.refused_value, db))
  ∨ (db_up w = true ∧ storable t ∧ ¬ fresh w db
     ∧ Prisma.create w {[ "title" := JStr t ]} db
       = (Rejected Prisma.unique_violation, db))
  ∨ (db_up w = true ∧ storable t ∧ fresh w db
     ∧ Prisma.create w {[ "title" := JStr t ]} db
       = (Resolved (new_item w t), db ++ [new_item w t])).
Proof.
  destruct (db_up w) eqn:Hup; [|left; by rewrite create_title_down].
  right. destruct (Prisma.has_nul t) eqn:Hst.
  - left. rewrite create_title_refused; [|done|]; unfold storable; by rewrite Hst.
  - right. destruct (decide (fresh w db)) as [Hf|Hf].
    + right. by rewrite create_title.
    + left. by rewrite create_title_taken.
Qed.

(** An insert of a bare title leaves the table as it was or appends one
    row carrying that title. *)
Lemma create_title_cases w t db :
  (Prisma.create w {[ "title" := JStr t ]} db).2 = db
  ∨ (Prisma.create w {[ "title" := JStr t ]} db).2 = db ++ [new_item w t].
Proof.
  destruct (create_title_outcome w t db)
    as [[_ ->]|[(_ & _ & ->)|[(_ & _ & _ & ->)|(_ & _ & _ & ->)]]]; auto.
Qed.

Lemma findMany_up w o db :
  db_up w = true →
  Prisma.findMany w o db = (Resolved (merge_sort (Prisma.before o) db), db).
Proof. intros Hup. unfold Prisma.findMany, Prisma.connected. by rewrite Hup. Qed.

Lemma findMany_read_only w o db : (Prisma.findMany w o db).2 = db.
Proof. unfold Prisma.findMany, Prisma.connected. by destruct (db_up w). Qed.

Lemma desc_newest_first db :
  newest_first (merge_sort (Prisma.before Prisma.desc) db).
Proof.
  unfold newest_first.
  pose proof (StronglySorted_merge_sort (Prisma.before Prisma.desc) db) as H.
  induction H as [|a l Hl IH Ha]; simpl; constructor; [done|].
  apply Forall_fmap. eapply Forall_impl; [exact Ha|]. done.
Qed.

End store.

(** ** The two routes *)

Section routes.

Lemma r_post_valid w m t db :
  m !! "title" = Some (JStr t) → title_ok t →
  r_post w (Some (JObj m)) db
  = await (Prisma.create w {[ "title" := JStr t ]})
          (λ item, resolve (created item)) db.
Proof. intros Hm Ht. unfold r_post. by rewrite (safeParse_valid _ _ Hm Ht). Qed.

Lemma r_post_invalid w rb error db :
  Zod.safeParse CreateItem rb = Zod.failure error →
  r_post w rb db
  = (Resolved {| status := 400; body := json (Zod.format error) |}, db).
Proof. intros H. unfold r_post. by rewrite H. Qed.

Lemma r_post_created w m t db :
  m !! "title" = Some (JStr t) → title_ok t → storable t →
  db_up w = true → fresh w db →
  r_post w (Some (JObj m)) db
  = (Resolved (created (new_item w t)), db ++ [new_item w t]).
Proof.
  intros Hm Ht Hst Hup Hf. rewrite (r_post_valid _ _ _ _ Hm Ht).
  unfold await. by rewrite create_title.
Qed.

Lemma r_get_up w db :
  db_up w = true →
  r_get w db
  = (Resolved (listed (merge_sort (Prisma.before Prisma.desc) db)), db).
Proof. intros Hup. unfold r_get, await. by rewrite findMany_up. Qed.

Lemma r_get_read_only w db : (r_get w db).2 = db.
Proof.
  unfold r_get, await. pose proof (findMany_read_only w Prisma.desc db) as H.
  destruct (Prisma.findMany w Prisma.desc db) as [[l|e] db']; simpl in *; done.
Qed.

(** A body that is no object at all is refused at the root of the
    formatted error, again without touching the table. *)
Lemma post_non_object_rejected w rb db :
  (∀ m, rb ≠ Some (JObj m)) →
  ∃ msg, r_post w rb db
         = (Resolved {| status := 400; body := json (JObj (node [msg])) |}, db).
Proof.
  intros Hrb.
  exists (Zod.message (Zod.invalid_type Zod.PTobject (Zod.getParsedType rb))).
  rewrite <- format_root_issue. apply r_post_invalid.
  destruct rb as [[]|]; try reflexivity. by destruct (Hrb m).
Qed.

Lemma filter_id_fresh (i : string) (db : list Item) :
  i ∉ id <$> db → filter (λ x, id x = i) db = [].
Proof.
  intros Hi. induction db as [|x db IH]; [done|].
  rewrite fmap_cons, not_elem_of_cons in Hi. destruct Hi as [Hx Hdb].
  rewrite filter_cons_False by (intros Hid; by apply Hx). by apply IH.
Qed.

Lemma filter_eq_fresh (it : Item) (db : list Item) :
  id it ∉ id <$> db → filter (λ x, x = it) db = [].
Proof.
  intros Hi. induction db as [|x db IH]; [done|].
  rewrite fmap_cons, not_elem_of_cons in Hi. destruct Hi as [Hx Hdb].
  rewrite filter_cons_False by (intros ->; done). by apply IH.
Qed.

End routes.

(** C1, as the code has it.  Creating an item with a valid title (1 to
    200 characters) that holds no U+0000, with the database reachable and
    the generated id unused, and then listing returns a list that holds
    the created record, with the same [id], [title] and [createdAt],
    exactly once; no other listed row shares its [id]. *)
Theorem create_then_list_once w w' m t db :
  m !! "title" = Some (JStr t) → title_ok t → storable t →
  db_up w = true → fresh w db → db_up w' = true →
  ∃ it db' l,
    r_post w (Some (JObj m)) db = (Resolved (created it), db')
    ∧ it = new_item w t
    ∧ r_get w' db' = (Resolved (listed l), db')
    ∧ length (filter (λ x, x = it) l) = 1
    ∧ length (filter (λ x, id x = id it) l) = 1.
Proof.
  intros Hm Ht Hst Hup Hf Hup'.
  exists (new_item w t), (db ++ [new_item w t]),
         (merge_sort (Prisma.before Prisma.desc) (db ++ [new_item w t])).
  split; [by apply r_post_created|]. split; [done|].
  split; [by apply r_get_up|].
  split.
  - rewrite (merge_sort_Permutation (Prisma.before Prisma.desc)).
    rewrite filter_app, (filter_eq_fresh (new_item w t) db Hf).
    by rewrite filter_cons_True.
  - rewrite (merge_sort_Permutation (Prisma.before Prisma.desc)).
    change (id (new_item w t)) with (gen_id w).
    rewrite filter_app, (filter_id_fresh (gen_id w) db Hf).
    by rewrite filter_cons_True.
Qed.

(** C2, as the code has it.  A POST whose body has a missing,
    non-string, empty or over-long [title] is answered 400 with a
    formatted error that carries one message, and the table is left as it
    was.  When the body is an object the message sits under [title] and
    the root holds none; it is "Required" when [title] is missing (as in
    [{}]).  When the body is no object (absent, or an array) the message
    sits at the root; it is "Required" for an absent body. *)
Theorem post_bad_title_rejected w rb db :
  bad_title (title_of rb) →
  ∃ msg,
    ((∃ m, rb = Some (JObj m))
     ∧ r_post w rb db = (Resolved (rejected_title msg), db)
     ∧ (title_of rb = None → msg = "Required"))
    ∨ ((∀ m, rb ≠ Some (JObj m))
       ∧ r_post w rb db = (Resolved (rejected_root msg), db)
       ∧ (rb = None → msg = "Required")).
Proof.
  intros Hbad.
  assert ((∃ m, rb = Some (JObj m)) ∨ (∀ m, rb ≠ Some (JObj m))) as [[m ->]|Hno].
  { destruct rb as [[]|]; eauto; right; intros m'; discriminate. }
  - simpl in Hbad. destruct (safeParse_bad m Hbad) as (c & Hc & Hreq).
    exists (Zod.message c). left. split; [by eexists|]. split.
    + rewrite (r_post_invalid _ _ _ _ Hc). by rewrite format_title_issue.
    + simpl. intros Hnone. by rewrite (Hreq Hnone).
  - exists (Zod.message (Zod.invalid_type Zod.PTobject (Zod.getParsedType rb))).
    right. split; [done|]. split; [|by intros ->].
    unfold rejected_root.
    change ({[ "_errors" := JArr [JStr ?x] ]}) with (node [x]).
    rewrite <- format_root_issue. apply r_post_invalid.
    destruct rb as [[]|]; try reflexivity. by destruct (Hno m).
Qed.

(** C3, as the code has it.  A POST whose body passes validation with a
    title that holds no U+0000, when the database is reachable and the
    generated id is unused, is answered 201 with the created record: the
    submitted title, the generated id and the creation time. *)
Theorem post_valid_created w rb data t db :
  Zod.safeParse CreateItem rb = Zod.success data →
  data !! "title" = Some (JStr t) → storable t →
  db_up w = true → fresh w db →
  ∃ m, rb = Some (JObj m) ∧ m !! "title" = Some (JStr t)
       ∧ r_post w rb db
         = (Resolved {| status := 201;
                        body := json (JObj (<["id" := JStr (gen_id w)]>
                                            (<["title" := JStr t]>
                                             {[ "createdAt" := JDate (now w) ]}))) |},
            db ++ [ {| id := gen_id w; title := t; createdAt := now w |} ]).
Proof.
  intros Hparse Hdata Hst Hup Hf.
  destruct (safeParse_success_inv _ _ Hparse) as (m & t' & -> & Hm & Ht & ->).
  rewrite lookup_singleton_eq in Hdata. injection Hdata as ->.
  exists m. split; [done|]. split; [done|].
  by rewrite (r_post_created w m t db Hm Ht Hst Hup Hf).
Qed.

(** C4.  Whatever the table holds, GET answers 200 with all stored rows,
    newest first: the [createdAt] values of the answer never increase.
    On an empty table the answer is the empty array. *)
Theorem get_newest_first w db :
  db_up w = true →
  ∃ l, r_get w db = (Resolved (listed l), db)
       ∧ l ≡ₚ db ∧ newest_first l ∧ (db = [] → l = []).
Proof.
  intros Hup. exists (merge_sort (Prisma.before Prisma.desc) db).
  split; [by apply r_get_up|].
  split; [apply merge_sort_Permutation|].
  split; [apply desc_newest_first|].
  by intros ->.
Qed.

(** C7.  Two GETs in a row, with no write in between, give the same
    array: the first leaves the table untouched and the second reads the
    same rows in the same order. *)
Theorem get_twice_identical w1 w2 db :
  db_up w1 = true → db_up w2 = true →
  ∃ l, r_get w1 db = (Resolved (listed l), db)
       ∧ r_get w2 (r_get w1 db).2 = (Resolved (listed l), db).
Proof.
  intros Hup1 Hup2. exists (merge_sort (Prisma.before Prisma.desc) db).
  rewrite r_get_read_only. split; by apply r_get_up.
Qed.


(** ** The title bound *)

Section invariant.

(** What a POST can do to the table: nothing, or append one row whose
    title went through the validator. *)
Lemma r_post_table w rb db :
  (r_post w rb db).2 = db
  ∨ ∃ data t, Zod.safeParse CreateItem rb = Zod.success data
              ∧ title_ok t ∧ (r_post w rb db).2 = db ++ [new_item w t].
Proof.
  destruct (Zod.safeParse CreateItem rb) as [data|error] eqn:Hparse.
  - destruct (safeParse_success_inv _ _ Hparse) as (m & t & -> & Hm & Ht & ->).
    rewrite (r_post_valid w m t db Hm Ht). unfold await.
    pose proof (create_title_cases w t db) as Hc.
    destruct (Prisma.create w {[ "title" := JStr t ]} db) as [[it|e] db'];
      simpl in *; destruct Hc as [->| ->]; eauto 6.
  - left. by rewrite (r_post_invalid _ _ _ _ Hparse).
Qed.

Lemma main_nonempty w db :
  db ≠ [] →
  main w db
  = (if db_up w
     then Resolved ("Items already present: " +:+ pretty (length db)
                    +:+ " (no new seed)")
     else Rejected Prisma.unreachable, db).
Proof.
  intros Hdb. unfold main, await, Prisma.count, Prisma.connected.
  destruct (db_up w); [|done]. by destruct db.
Qed.

Lemma main_empty w :
  main w []
  = if db_up w then (Resolved "Seeded 1 item", [new_item w welcome])
    else (Rejected Prisma.unreachable, []).
Proof.
  unfold main, await at 1, Prisma.count, Prisma.connected.
  destruct (db_up w) eqn:Hup; [|done]. simpl. unfold await.
  rewrite create_title; [done|done|reflexivity|apply not_elem_of_nil].
Qed.

Lemma seed_nonempty w db : db ≠ [] → (seed w db).2 = db.
Proof.
  intros Hdb. unfold seed. rewrite (main_nonempty w db Hdb).
  by destruct (db_up w).
Qed.

Lemma seed_empty w :
  seed w [] = if db_up w then (0, [new_item w welcome]) else (1, []).
Proof. unfold seed. rewrite main_empty. by destruct (db_up w). Qed.

Lemma seed_table w db :
  (seed w db).2 = db ∨ (db = [] ∧ (seed w db).2 = [new_item w welcome]).
Proof.
  destruct db as [|x db].
  - rewrite seed_empty. destruct (db_up w); auto.
  - left. by apply seed_nonempty.
Qed.

Lemma welcome_ok : title_ok welcome.
Proof. unfold title_ok, welcome. simpl. lia. Qed.

Lemma run_step db step :
  title_bound db → title_bound (run db step) ∧ db `prefix_of` run db step.
Proof.
  intros Hdb. destruct step as [w [|rb|]]; simpl.
  - by rewrite r_get_read_only.
  - destruct (r_post_table w rb db) as [-> | (data & t & _ & Ht & ->)].
    + done.
    + split; [|by apply prefix_app_r].
      apply Forall_app. split; [done|]. by constructor.
  - destruct (seed_table w db) as [-> | [-> ->]].
    + done.
    + split; [|apply prefix_nil].
      constructor; [apply welcome_ok|constructor].
Qed.

End invariant.

(** C5.  Every row the items operations ever store has a title of 1 to
    200 characters.  The bound is settled by the validator before the
    insert: data that pass it are a bare, well-sized title, and a POST
    changes the table only by appending a row whose title passed.  Every
    operation keeps the bound and only ever appends (no row is changed or
    removed), so every table reached from the empty one satisfies it. *)
Theorem title_bound_invariant :
  (∀ rb data, Zod.safeParse CreateItem rb = Zod.success data →
              ∃ t, data = {[ "title" := JStr t ]} ∧ title_ok t)
  ∧ (∀ w rb db, (r_post w rb db).2 ≠ db →
       ∃ data t, Zod.safeParse CreateItem rb = Zod.success data
                 ∧ title_ok t ∧ (r_post w rb db).2 = db ++ [new_item w t])
  ∧ (∀ db step, title_bound db →
       title_bound (run db step) ∧ db `prefix_of` run db step)
  ∧ (∀ trace, title_bound (run_all trace)).
Proof.
  split; [|split; [|split]].
  - intros rb data Hparse.
    destruct (safeParse_success_inv _ _ Hparse) as (m & t & _ & _ & Ht & ->).
    by exists t.
  - intros w rb db Hne. destruct (r_post_table w rb db) as [Heq|Happ]; done.
  - apply run_step.
  - intros trace. unfold run_all.
    assert (title_bound []) as Hnil by constructor.
    revert Hnil. generalize (@nil Item).
    induction trace as [|step trace IH]; intros db Hdb; [done|].
    simpl. apply IH. by apply run_step.
Qed.

(** C10.  The seed script leaves a non-empty table as it is; it changes a
    table only when it is empty, and then by inserting the single
    "Welcome to ESDA" row; so a second run after a successful first run
    from the empty table changes nothing and one row remains. *)
Theorem seed_idempotent w1 w2 db :
  (db ≠ [] → (seed w1 db).2 = db)
  ∧ ((seed w1 db).2 ≠ db →
       db = [] ∧ (seed w1 db).2
                 = [ {| id := gen_id w1; title := "Welcome to ESDA";
                        createdAt := now w1 |} ])
  ∧ (db_up w1 = true →
       seed w1 [] = (0, [ {| id := gen_id w1; title := "Welcome to ESDA";
                             createdAt := now w1 |} ])
       ∧ (seed w2 (seed w1 []).2).2 = (seed w1 []).2
       ∧ length (seed w2 (seed w1 []).2).2 = 1).
Proof.
  split; [apply seed_nonempty|]. split.
  - intros Hne. destruct (seed_table w1 db) as [Heq|Hins]; done.
  - intros Hup. rewrite seed_empty, Hup. split; [done|]. simpl.
    by rewrite seed_nonempty.
Qed.

(** ** The CORS gate *)

Section gate.

Lemma falsy_spec o : falsy o = true ↔ o = None ∨ o = Some "".
Proof.
  destruct o as [s|]; simpl; [|by split; [left|]].
  rewrite bool_decide_eq_true. split.
  - intros ->. by right.
  - intros [?|[= ->]]; done.
Qed.

Lemma configured_origin_nonempty env : configured_origin env ≠ "".
Proof.
  unfold configured_origin, js_or.
  destruct (FRONTEND_ORIGIN env) as [s|]; [|done]. simpl.
  case_bool_decide; done.
Qed.

End gate.

(** C8, as the code has it.  The origin callback lets a request pass when
    it carries no [Origin] header or an empty one, and otherwise exactly
    when its origin is the configured one; every other origin is refused
    with the error "Not allowed by CORS".  The configured origin is
    [FRONTEND_ORIGIN], or [http://localhost:3000] when that variable is
    unset or empty. *)
Theorem cors_origin_accepts_iff env o :
  (cors_origin env o = Resolved true
   ↔ o = None ∨ o = Some "" ∨ o = Some (configured_origin env))
  ∧ (cors_origin env o ≠ Resolved true → cors_origin env o = Rejected not_allowed)
  ∧ (falsy (FRONTEND_ORIGIN env) = true →
       configured_origin env = "http://localhost:3000")
  ∧ (∀ s, FRONTEND_ORIGIN env = Some s → s ≠ "" → configured_origin env = s).
Proof.
  split; [|split; [|split]].
  - unfold cors_origin. destruct (falsy o) eqn:Hf.
    + apply falsy_spec in Hf. split; [|done].
      intros _. destruct Hf; auto.
    + assert (o ≠ None ∧ o ≠ Some "") as [Hn He].
      { split; intros ->; discriminate. }
      unfold allowedOrigins. fold (configured_origin env).
      case_bool_decide as Hin.
      * apply list_elem_of_singleton in Hin. split; [|done].
        intros _. right. right. by destruct o as [s|]; simplify_eq.
      * split; [discriminate|]. intros [?|[?|Ho]]; [done..|]. subst o.
        destruct Hin. by apply list_elem_of_singleton.
  - unfold cors_origin. destruct (falsy o); [done|].
    by case_bool_decide.
  - unfold configured_origin, js_or. destruct (FRONTEND_ORIGIN env); [|done].
    by intros ->.
  - intros s Hs Hne. unfold configured_origin, js_or. rewrite Hs. simpl.
    by rewrite bool_decide_eq_false_2.
Qed.

(** ** Failures *)

Section failures.

(** The only errors a route handler lets escape are Prisma's, and the
    table is as it was when they do. *)
Lemma handler_rejection w rq handler db e db' :
  itemsRoutes w rq = Some handler → handler db = (Rejected e, db') →
  (e = Prisma.unreachable ∨ e = Prisma.unique_violation
   ∨ e = Prisma.refused_value) ∧ db' = db.
Proof.
  unfold itemsRoutes. destruct (method rq); try discriminate; intros [= <-].
  - unfold r_get, await, Prisma.findMany, Prisma.connected.
    destruct (db_up w); [discriminate|]. intros [= <- <-]. auto.
  - unfold r_post.
    destruct (Zod.safeParse CreateItem (req_body rq)) as [data|error] eqn:Hp;
      [|discriminate].
    destruct (safeParse_success_inv _ _ Hp) as (m & t & _ & _ & _ & ->).
    unfold await.
    destruct (create_title_outcome w t db)
      as [[_ ->]|[(_ & _ & ->)|[(_ & _ & _ & ->)|(_ & _ & _ & ->)]]];
      try discriminate; intros [= <- <-]; auto.
Qed.

Lemma default_error_handler_production env e :
  NODE_ENV env = Some "production" → default_error_handler env e = generic_500.
Proof. intros H. unfold default_error_handler. by rewrite H. Qed.

Lemma default_error_handler_other env e :
  NODE_ENV env ≠ Some "production" →
  default_error_handler env e
  = {| status := 500; body := error_page (err_stack e) |}.
Proof.
  intros H. unfold default_error_handler.
  rewrite bool_decide_eq_false_2; [done|].
  unfold js_or. destruct (NODE_ENV env) as [s|]; [|done]. simpl.
  case_bool_decide; [done|]. intros ->. done.
Qed.

End failures.

(** C6, as the code has it.  For a request to [/api/items] that passed
    the CORS gate and the rate limiter: a validation failure is answered
    by the handler itself with a structured 400; a persistence failure
    (database unreachable, primary key taken, a title the database
    refuses) is not caught by the handler, leaves the table as it was,
    and is answered by Express's built-in error handler with status 500
    -- the generic "Internal Server Error" when [NODE_ENV] is
    [production], the error's name and message otherwise. *)
Theorem error_propagation env w rq db :
  cors_origin env (origin rq) = Resolved true → over_limit w = false →
  (∀ error, method rq = POST →
     Zod.safeParse CreateItem (req_body rq) = Zod.failure error →
     r_post w (req_body rq) db = (Resolved (bad_request error), db)
     ∧ app_handle env w rq db = (bad_request error, db))
  ∧ (∀ handler e db',
       itemsRoutes w rq = Some handler → handler db = (Rejected e, db') →
       (e = Prisma.unreachable ∨ e = Prisma.unique_violation
        ∨ e = Prisma.refused_value)
       ∧ db' = db
       ∧ app_handle env w rq db = (default_error_handler env e, db)
       ∧ status (default_error_handler env e) = 500
       ∧ (NODE_ENV env = Some "production" →
            default_error_handler env e = generic_500)
       ∧ (NODE_ENV env ≠ Some "production" →
            body (default_error_handler env e) = error_page (err_stack e)))
  ∧ (db_up w = false →
       method rq = GET
       ∨ (method rq = POST
          ∧ ∃ data, Zod.safeParse CreateItem (req_body rq) = Zod.success data) →
       app_handle env w rq db = (default_error_handler env Prisma.unreachable, db))
  ∧ (db_up w = true → ¬ fresh w db → method rq = POST →
       (∃ data t, Zod.safeParse CreateItem (req_body rq) = Zod.success data
                  ∧ data !! "title" = Some (JStr t) ∧ storable t) →
       app_handle env w rq db
       = (default_error_handler env Prisma.unique_violation, db))
  ∧ (db_up w = true → method rq = POST →
       (∃ data t, Zod.safeParse CreateItem (req_body rq) = Zod.success data
                  ∧ data !! "title" = Some (JStr t) ∧ ¬ storable t) →
       app_handle env w rq db
       = (default_error_handler env Prisma.refused_value, db)).
Proof.
  intros Hcors Hlimit. unfold app_handle. rewrite Hcors, Hlimit.
  split; [|split; [|split; [|split]]].
  - intros error Hm Hp. unfold itemsRoutes. rewrite Hm.
    by rewrite (r_post_invalid w _ _ db Hp).
  - intros handler e db' Hroute Hrej.
    destruct (handler_rejection _ _ _ _ _ _ Hroute Hrej) as [He ->].
    rewrite Hroute, Hrej. split; [done|]. split; [done|]. split; [done|].
    split; [done|]. split; [apply default_error_handler_production|].
    intros Hne. by rewrite default_error_handler_other.
  - intros Hup [Hm | [Hm [data Hp]]]; unfold itemsRoutes; rewrite Hm.
    + unfold r_get, await, Prisma.findMany, Prisma.connected. by rewrite Hup.
    + destruct (safeParse_success_inv _ _ Hp) as (m & t & Hrb & Ht & Hok & _).
      rewrite Hrb, (r_post_valid w m t db Ht Hok). unfold await.
      by rewrite create_title_down.
  - intros Hup Hf Hm (data & t & Hp & Hdata & Hst). unfold itemsRoutes.
    rewrite Hm.
    destruct (safeParse_success_inv _ _ Hp) as (m & t' & Hrb & Ht & Hok & ->).
    rewrite lookup_singleton_eq in Hdata. injection Hdata as ->.
    rewrite Hrb, (r_post_valid w m t db Ht Hok). unfold await.
    by rewrite create_title_taken.
  - intros Hup Hm (data & t & Hp & Hdata & Hst). unfold itemsRoutes.
    rewrite Hm.
    destruct (safeParse_success_inv _ _ Hp) as (m & t' & Hrb & Ht & Hok & ->).
    rewrite lookup_singleton_eq in Hdata. injection Hdata as ->.
    rewrite Hrb, (r_post_valid w m t db Ht Hok). unfold await.
    by rewrite create_title_refused.
Qed.

(** * Worked examples *)

(** The three scenarios of the specification, by evaluation. *)
Example post_welcome :
  r_post w_a (body_of "Welcome to ESDA") []
  = (Resolved {| status := 201;
                 body := json (JObj (<["id" := JStr "ckx0001"]>
                                     (<["title" := JStr "Welcome to ESDA"]>
                                      {[ "createdAt" := JDate 1700000000000 ]}))) |},
     [ {| id := "ckx0001"; title := "Welcome to ESDA";
          createdAt := 1700000000000 |} ]).
Proof. vm_compute. reflexivity. Qed.

Example post_empty_object :
  r_post w_a (Some (JObj ∅)) sample_table
  = (Resolved {| status := 400;
                 body := json (JObj (<["title" := JObj {[ "_errors" := JArr [JStr "Required"] ]}]>
                                     {[ "_errors" := JArr [] ]})) |},
     sample_table).
Proof. vm_compute. reflexivity. Qed.

Example get_empty :
  r_get w_a [] = (Resolved {| status := 200; body := json (JArr []) |}, []).
Proof. reflexivity. Qed.

Example get_sample :
  (r_get w_a sample_table).1
  = Resolved (listed [ {| id := "ckx0002"; title := "third"; createdAt := 1700000060000 |};
                       {| id := "ckx0003"; title := "second"; createdAt := 1700000030000 |};
                       {| id := "ckx0001"; title := "first"; createdAt := 1700000000000 |} ]).
Proof. vm_compute. reflexivity. Qed.

(** A body that is an array is refused at the root. *)
Example post_array :
  r_post w_a (Some (JArr [])) []
  = (Resolved {| status := 400;
                 body := json (JObj {[ "_errors" :=
                                         JArr [JStr "Expected object, received array"] ]}) |},
     []).
Proof. vm_compute. reflexivity. Qed.

(** ** Instances of the theorems *)

Lemma create_then_list_once_witness :
  ∃ it db' l,
    r_post w_d (body_of welcome) sample_table = (Resolved (created it), db')
    ∧ it = new_item w_d welcome
    ∧ r_get w_b db' = (Resolved (listed l), db')
    ∧ length (filter (λ x, x = it) l) = 1
    ∧ length (filter (λ x, id x = id it) l) = 1.
Proof.
  apply (create_then_list_once w_d w_b {[ "title" := JStr welcome ]} welcome
           sample_table).
  - reflexivity.
  - unfold title_ok, welcome. simpl. lia.
  - reflexivity.
  - reflexivity.
  - by_evaluation.
  - reflexivity.
Defined.

Lemma post_bad_title_rejected_witness :
  r_post w_a (Some (JObj ∅)) sample_table
  = (Resolved (rejected_title "Required"), sample_table).
Proof.
  destruct (post_bad_title_rejected w_a (Some (JObj ∅)) sample_table)
    as (msg & [(_ & Hpost & Hmsg) | (Hno & _)]).
  - vm_compute. constructor.
  - rewrite (Hmsg (lookup_empty _)) in Hpost. exact Hpost.
  - destruct (Hno ∅ eq_refl).
Defined.

Lemma post_valid_created_witness :
  r_post w_a (body_of "Welcome to ESDA") []
  = (Resolved {| status := 201;
                 body := json (JObj (<["id" := JStr "ckx0001"]>
                                     (<["title" := JStr "Welcome to ESDA"]>
                                      {[ "createdAt" := JDate 1700000000000 ]}))) |},
     [ {| id := "ckx0001"; title := "Welcome to ESDA";
          createdAt := 1700000000000 |} ]).
Proof.
  destruct (post_valid_created w_a (body_of "Welcome to ESDA")
              {[ "title" := JStr "Welcome to ESDA" ]} "Welcome to ESDA" [])
    as (m & Hrb & Hm & Hpost).
  - vm_compute. reflexivity.
  - vm_compute. reflexivity.
  - reflexivity.
  - reflexivity.
  - apply not_elem_of_nil.
  - exact Hpost.
Defined.

Lemma get_newest_first_witness :
  ∃ l, r_get w_a sample_table = (Resolved (listed l), sample_table)
       ∧ l ≡ₚ sample_table ∧ newest_first l ∧ (sample_table = [] → l = []).
Proof. apply (get_newest_first w_a sample_table). reflexivity. Defined.

Lemma title_bound_invariant_witness :
  title_bound (run [] (w_a, op_post (body_of welcome)))
  ∧ [] `prefix_of` run [] (w_a, op_post (body_of welcome)).
Proof.
  destruct title_bound_invariant as (_ & _ & Hstep & _).
  apply (Hstep [] (w_a, op_post (body_of welcome))). constructor.
Defined.

Lemma get_twice_identical_witness :
  ∃ l, r_get w_a sample_table = (Resolved (listed l), sample_table)
       ∧ r_get w_b (r_get w_a sample_table).2
         = (Resolved (listed l), sample_table).
Proof. apply (get_twice_identical w_a w_b sample_table); reflexivity. Defined.


Lemma seed_idempotent_witness :
  (seed w_b (seed w_a []).2).2
  = [ {| id := "ckx0001"; title := "Welcome to ESDA";
         createdAt := 1700000000000 |} ].
Proof.
  destruct (seed_idempotent w_a w_b []) as (_ & _ & Htwice).
  destruct (Htwice eq_refl) as (Hfirst & Hsecond & _).
  rewrite Hsecond, Hfirst. reflexivity.
Defined.

Lemma cors_origin_accepts_iff_witness :
  cors_origin env_production (Some "https://esda.example") = Resolved true.
Proof.
  destruct (cors_origin_accepts_iff env_production
              (Some "https://esda.example")) as (Hiff & _).
  apply Hiff. right. right. reflexivity.
Defined.

Lemma error_propagation_witness :
  app_handle env_production w_down get_items sample_table
  = (generic_500, sample_table).
Proof.
  destruct (error_propagation env_production w_down get_items sample_table
              eq_refl eq_refl) as (_ & _ & Hdown & _).
  exact (Hdown eq_refl (or_introl eq_refl)).
Defined.

(** ** Where the specification says more than the code does *)

(** C8: a request without an [Origin] header, and one whose header is
    empty, pass the gate although neither names the configured origin. *)
Lemma cors_accepts_absent_or_empty_origin :
  cors_origin env_default None = Resolved true
  ∧ cors_origin env_default (Some "") = Resolved true
  ∧ None ≠ Some (configured_origin env_default)
  ∧ Some "" ≠ Some (configured_origin env_default).
Proof. repeat split; try reflexivity; discriminate. Qed.

(** C1: the one-character title U+0000 is valid, the database is
    reachable and the id unused, yet the insert is refused, nothing is
    stored, and the next listing holds no row with that title.  Nor is a
    row created for the valid title "Welcome to ESDA" when the generated
    id is already taken or the database does not answer. *)
Lemma nul_title_never_listed :
  title_ok nul_title ∧ db_up w_d = true ∧ fresh w_d sample_table
  ∧ r_post w_d (body_of nul_title) sample_table
    = (Rejected Prisma.refused_value, sample_table)
  ∧ (∃ l, r_get w_b (r_post w_d (body_of nul_title) sample_table).2
          = (Resolved (listed l), sample_table)
          ∧ filter (λ x, title x = nul_title) l = [])
  ∧ title_ok welcome
  ∧ r_post w_a (body_of welcome) sample_table
    = (Rejected Prisma.unique_violation, sample_table)
  ∧ r_post w_down (body_of welcome) sample_table
    = (Rejected Prisma.unreachable, sample_table).
Proof.
  split; [unfold title_ok, nul_title; simpl; lia|].
  split; [reflexivity|]. split; [by_evaluation|].
  split; [vm_compute; reflexivity|].
  split.
  { exists (merge_sort (Prisma.before Prisma.desc) sample_table).
    split; vm_compute; reflexivity. }
  split; [unfold title_ok, welcome; simpl; lia|].
  split; vm_compute; reflexivity.
Qed.

(** C2: a POST without a body, and one whose body is an array, have no
    [title], yet the error they get has no entry under [title]: its one
    message sits at the root. *)
Lemma post_without_object_root_error :
  bad_title (title_of None) ∧ bad_title (title_of (Some (JArr [])))
  ∧ r_post w_a None sample_table
    = (Resolved (rejected_root "Required"), sample_table)
  ∧ r_post w_a (Some (JArr [])) sample_table
    = (Resolved (rejected_root "Expected object, received array"), sample_table)
  ∧ (∀ msg o, body (rejected_root msg) = json (JObj o) → o !! "title" = None)
  ∧ (∀ msg msg', rejected_root msg ≠ rejected_title msg').
Proof.
  split; [constructor|]. split; [constructor|].
  split; [vm_compute; reflexivity|]. split; [vm_compute; reflexivity|].
  split.
  - intros msg o [= <-]. by rewrite lookup_singleton_ne.
  - by intros msg msg' [= H].
Qed.

(** C3: the body [{title: U+0000}] passes validation, the database is
    reachable and the id unused, yet the answer is 500 and no row is
    stored.  A body that passes validation is answered 500 as well when
    the generated id is already taken or the database does not answer. *)
Lemma post_nul_title_not_created :
  Zod.safeParse CreateItem (body_of nul_title)
  = Zod.success {[ "title" := JStr nul_title ]}
  ∧ db_up w_d = true ∧ fresh w_d sample_table
  ∧ app_handle env_default w_d (local_post nul_title) sample_table
    = ({| status := 500;
          body := error_page
                    "PrismaClientUnknownRequestError: invalid byte sequence for encoding UTF8: 0x00" |},
       sample_table)
  ∧ Zod.safeParse CreateItem (body_of welcome)
    = Zod.success {[ "title" := JStr welcome ]}
  ∧ (app_handle env_default w_a (local_post welcome) sample_table).2
    = sample_table
  ∧ status (app_handle env_default w_a (local_post welcome) sample_table).1
    = 500
  ∧ (app_handle env_default w_down (local_post welcome) sample_table).2
    = sample_table
  ∧ status (app_handle env_default w_down (local_post welcome) sample_table).1
    = 500.
Proof.
  split; [vm_compute; reflexivity|]. split; [reflexivity|].
  split; [by_evaluation|]. split; [vm_compute; reflexivity|].
  split; [vm_compute; reflexivity|]. split_and!; reflexivity.
Qed.

(** C6: with [NODE_ENV] unset and the database down, the 500 answer names
    the Prisma error instead of being the generic one. *)
Lemma persistence_failure_shown_outside_production :
  app_handle env_default w_down get_items sample_table
  = ({| status := 500;
        body := error_page
                  "PrismaClientInitializationError: Can't reach database server" |},
     sample_table)
  ∧ (app_handle env_default w_down get_items sample_table).1 ≠ generic_500.
Proof. split; [reflexivity|]. vm_compute. discriminate. Qed.

(** * Further properties of the code *)

(** ** The endpoint as a whole *)

Section endpoint.


Lemma parse_accepted rb data :
  Zod.safeParse CreateItem rb = Zod.success data → ∃ t, accepted rb t.
Proof.
  intros Hp. destruct (safeParse_success_inv _ _ Hp) as (m & t & -> & Hm & Ht & _).
  exists t, m. done.
Qed.


Lemma r_post_accepted w rb t db :
  accepted rb t →
  r_post w rb db
  = await (Prisma.create w {[ "title" := JStr t ]})
          (λ item, resolve (created item)) db.
Proof. intros (m & -> & Hm & Ht). by apply r_post_valid. Qed.

Lemma cors_origin_cases env o :
  cors_origin env o = Resolved true ∨ cors_origin env o = Rejected not_allowed.
Proof.
  unfold cors_origin. destruct (falsy o); [by left|].
  case_bool_decide; [by left|by right].
Qed.

Lemma snoc_ne {A} (l : list A) (x : A) : l ++ [x] ≠ l.
Proof.
  intros H. apply (f_equal length) in H. rewrite length_app in H.
  simpl in H. lia.
Qed.

(** Every answer of the stack falls under one of the ten cases. *)
Lemma app_handle_served env w rq db :
  served env w rq db (app_handle env w rq db).
Proof.
  unfold app_handle.
  destruct (cors_origin_cases env (origin rq)) as [Hc|Hc]; rewrite Hc.
  2: by constructor.
  destruct (over_limit w) eqn:Hl; [by constructor|].
  assert (admitted env w rq) as Hadm by done.
  unfold itemsRoutes. destruct (method rq) eqn:Hm;
    try (apply served_unrouted; [done|by rewrite Hm..]).
  - destruct (db_up w) eqn:Hup.
    + rewrite r_get_up by done. by apply served_listed.
    + unfold r_get, await, Prisma.findMany, Prisma.connected. rewrite Hup.
      by apply served_list_failed.
  - destruct (Zod.safeParse CreateItem (req_body rq)) as [data|error] eqn:Hp.
    + destruct (parse_accepted _ _ Hp) as [t Ht].
      rewrite (r_post_accepted w _ t db Ht). unfold await.
      destruct (create_title_outcome w t db)
        as [[Hup ->]|[(Hup & Hst & ->)|[(Hup & Hst & Hf & ->)
                                        |(Hup & Hst & Hf & ->)]]].
      * by eapply served_insert_failed.
      * by eapply served_value_refused.
      * by eapply served_id_taken.
      * by eapply served_created.
    + rewrite (r_post_invalid w _ _ db Hp). by apply served_invalid.
Qed.

Lemma accepted_title_unique rb t1 t2 : accepted rb t1 → accepted rb t2 → t1 = t2.
Proof. intros (m1 & -> & H1 & _) (m2 & [= <-] & H2 & _). congruence. Qed.

(** Only the last of the ten cases touches the table, and only it
    answers 201. *)
Lemma served_write env w rq db out :
  served env w rq db out →
  (out.2 = db ∧ status out.1 ≠ 201)
  ∨ ∃ t, admitted env w rq ∧ method rq = POST ∧ accepted (req_body rq) t
         ∧ db_up w = true ∧ storable t ∧ fresh w db
         ∧ out = (created (new_item w t), db ++ [new_item w t]).
Proof. destruct 1; simpl; try (by left); right; eauto 12. Qed.


Lemma status_sent_for v res : status (sent_for v res) = status res.
Proof. by destruct v. Qed.

(** How a request gets through the stack, or where it is stopped. *)
Lemma app_request_cases env w rq db :
  (cors_origin env (from rq) = Rejected not_allowed
   ∧ app_request env w rq db
     = (sent_for (verb rq) (default_error_handler env not_allowed), db))
  ∨ (cors_origin env (from rq) = Resolved true ∧ verb rq = OPTIONS
     ∧ app_request env w rq db = (preflight, db))
  ∨ (cors_origin env (from rq) = Resolved true ∧ verb rq ≠ OPTIONS
     ∧ over_limit w = true
     ∧ app_request env w rq db
       = (sent_for (verb rq) too_many_requests, db))
  ∨ (cors_origin env (from rq) = Resolved true ∧ verb rq ≠ OPTIONS
     ∧ over_limit w = false
     ∧ ∃ f, express_json (entity rq) = inl f
            ∧ app_request env w rq db
              = (sent_for (verb rq) (fault_handler env f), db))
  ∨ (verb rq ≠ OPTIONS
     ∧ ∃ b, let_through env w rq b
            ∧ app_request env w rq db
              = (sent_for (verb rq) (app_handle env w (parsed rq b) db).1,
                 (app_handle env w (parsed rq b) db).2)).
Proof.
  unfold app_request.
  destruct (cors_origin_cases env (from rq)) as [Hc|Hc]; rewrite Hc;
    [|by left].
  right. destruct (verb rq) as [m| |] eqn:Hv; [|..|by left]; right.
  all: destruct (over_limit w) eqn:Hl; [by left|right].
  all: destruct (express_json (entity rq)) as [f|b] eqn:He;
    [left; split_and!; try done; by exists f|right].
  all: split; [done|]; exists b; split; [done|].
  all: unfold app_handle, parsed, itemsRoutes; simpl; rewrite Hv, Hc, Hl; simpl.
  all: try destruct m; simpl; try done.
  all: try by destruct (r_get w db) as [[res|e] db'].
  all: by destruct (r_post w b db) as [[res|e] db'].
Qed.

End endpoint.

(** The POST route answers 400 exactly for the bodies that are not an
    object with a string [title] of 1 to 200 characters, whatever the
    state of the database; for every other body the answer is not a 400. *)
Theorem r_post_400_iff w rb db :
  (∃ error, r_post w rb db = (Resolved (bad_request error), db))
  ↔ ¬ ∃ t, accepted rb t.
Proof.
  split.
  - intros [error Hpost] [t Ht]. rewrite (r_post_accepted w rb t db Ht) in Hpost.
    unfold await in Hpost.
    destruct (Prisma.create w {[ "title" := JStr t ]} db) as [[it|e] db'];
      discriminate.
  - intros Hno. destruct (Zod.safeParse CreateItem rb) as [data|error] eqn:Hp.
    + destruct Hno. by apply parse_accepted in Hp.
    + exists error. by apply r_post_invalid.
Qed.

(** The body of a 400 carries exactly one message: under [title] when
    the request body is an object, at the root when it is not. *)
Theorem r_post_error_shape w rb db res db' :
  r_post w rb db = (Resolved res, db') → status res = 400 →
  db' = db
  ∧ ∃ msg,
      ((∃ m, rb = Some (JObj m)) ∧ res = rejected_title msg)
      ∨ ((∀ m, rb ≠ Some (JObj m))
         ∧ res = {| status := 400; body := json (JObj (node [msg])) |}).
Proof.
  intros Hpost Hst.
  destruct (Zod.safeParse CreateItem rb) as [data|error] eqn:Hp.
  - destruct (parse_accepted _ _ Hp) as [t Ht].
    rewrite (r_post_accepted w rb t db Ht) in Hpost. unfold await in Hpost.
    destruct (Prisma.create w {[ "title" := JStr t ]} db) as [[it|e] db''];
      [|discriminate].
    injection Hpost as <- <-. discriminate.
  - rewrite (r_post_invalid w _ _ db Hp) in Hpost. injection Hpost as <- <-.
    split; [done|]. clear Hst.
    destruct rb as [v|].
    2: { exists "Required". right. split; [done|].
         injection Hp as <-. by rewrite format_root_issue. }
    destruct v as [| | | | | |m];
      try (eexists; right; split; [done|]; injection Hp as <-;
           by rewrite format_root_issue).
    unfold Zod.safeParse, CreateItem, Zod.parse_fields in Hp.
    destruct (Zod.parse_string _ _ (m !! "title")) as [iss|t] eqn:Hs;
      [|by rewrite insert_empty in Hp].
    rewrite app_nil_r in Hp.
    assert (∃ c, iss = [title_issue c]) as [c ->].
    { unfold Zod.parse_string in Hs.
      destruct (m !! "title") as [[]|]; try (injection Hs as <-; by eexists).
      simpl in Hs. destruct (_ <? 1) eqn:E1, (200 <? _) eqn:E2;
        simpl in Hs; try (injection Hs as <-; by eexists); try discriminate.
      apply Nat.ltb_lt in E1, E2. lia. }
    injection Hp as <-. exists (Zod.message c). left. split; [by eexists|].
    unfold bad_request. by rewrite format_title_issue.
Qed.

(** A request, as it arrives, changes the table exactly when it is a
    POST that got past the CORS gate, the rate limiter and the body
    parser, carries an accepted body whose title the database can hold,
    and meets a reachable database and an unused id; the answer is then
    the 201 with the new row, and 201 is never given otherwise. *)
Theorem app_request_writes_iff env w rq db :
  ((app_request env w rq db).2 ≠ db
   ↔ verb rq = routed POST
     ∧ ∃ b t, let_through env w rq b ∧ accepted b t ∧ storable t
              ∧ db_up w = true ∧ fresh w db)
  ∧ (status (app_request env w rq db).1 = 201
     ↔ (app_request env w rq db).2 ≠ db)
  ∧ (∀ b t, express_json (entity rq) = inr b → accepted b t →
            (app_request env w rq db).2 ≠ db →
            app_request env w rq db
            = (created (new_item w t), db ++ [new_item w t])).
Proof.
  destruct (app_request_cases env w rq db)
    as [[Hc ->]|[(Hc & Hv & ->)|[(Hc & Hv & Hl & ->)
        |[(Hc & Hv & Hl & f & Hf & ->)|(Hv & b & (Hc & Hl & Hb) & ->)]]]];
    simpl; rewrite ?status_sent_for.
  - split_and!; [split; [done|]|by destruct (NODE_ENV env)|done].
    intros (_ & b & t & (Hc' & _) & _). congruence.
  - split_and!; [split; [done|]|done|done].
    intros (Hv' & _). congruence.
  - split_and!; [split; [done|]|done|done].
    intros (_ & b & t & (_ & Hl' & _) & _). congruence.
  - split_and!; [split; [done|]|by destruct f|done].
    intros (_ & b & t & (_ & _ & Hb') & _). congruence.
  - destruct (served_write env w (parsed rq b) db _
                (app_handle_served env w (parsed rq b) db))
      as [[Heq Hst] | (t & Hadm & Hm & Ht & Hup & Hsto & Hfr & Hout)].
    + rewrite Heq. split_and!; [split; [done|]|done|done].
      intros (Hpost & b' & t & (_ & _ & Hb') & Ht & Hsto & Hup & Hfr).
      assert (b' = b) as -> by congruence. revert Heq.
      unfold app_handle, parsed, itemsRoutes. rewrite Hpost. simpl.
      rewrite Hc, Hl. rewrite (r_post_accepted w _ t db Ht). unfold await.
      rewrite create_title by done. simpl. intros Habs.
      by destruct (snoc_ne _ _ Habs).
    + rewrite Hout. simpl in *.
      assert (verb rq = routed POST) as Hpost.
      { destruct (verb rq) as [m| |]; simpl in Hm; by subst. }
      rewrite Hpost. simpl. split_and!.
      * split; [|intros _; apply snoc_ne]. intros _. split; [done|].
        exists b, t. done.
      * split; [intros _; apply snoc_ne|done].
      * intros b' t' Hb' Ht' _. assert (b' = b) as -> by congruence.
        by rewrite (accepted_title_unique _ _ _ Ht' Ht).
Qed.



Section tables.

Lemma ids_unique_snoc w t db :
  ids_unique db → fresh w db → ids_unique (db ++ [new_item w t]).
Proof.
  unfold ids_unique, fresh. intros Hdb Hf. rewrite fmap_app.
  apply NoDup_app. split; [done|]. split.
  - intros i Hi. simpl. rewrite list_elem_of_singleton. by intros ->.
  - simpl. apply NoDup_singleton.
Qed.

Lemma title_bound_snoc w t db :
  title_bound db → title_ok t → title_bound (db ++ [new_item w t]).
Proof.
  intros Hdb Ht. apply Forall_app. split; [done|]. by constructor.
Qed.

Lemma run_ids_unique db step : ids_unique db → ids_unique (run db step).
Proof.
  intros Hdb. destruct step as [w [|rb|]]; simpl.
  - by rewrite r_get_read_only.
  - destruct (Zod.safeParse CreateItem rb) as [data|error] eqn:Hp.
    + destruct (parse_accepted _ _ Hp) as [t Ht].
      rewrite (r_post_accepted w rb t db Ht). unfold await.
      destruct (create_title_outcome w t db)
        as [[_ ->]|[(_ & _ & ->)|[(_ & _ & _ & ->)|(_ & _ & Hf & ->)]]];
        try done.
      by apply ids_unique_snoc.
    + by rewrite (r_post_invalid w _ _ db Hp).
  - destruct (seed_table w db) as [-> | [-> ->]]; [done|].
    apply (ids_unique_snoc w welcome []); [constructor|apply not_elem_of_nil].
Qed.

Lemma sorted_desc_newest_first l :
  StronglySorted (Prisma.before Prisma.desc) l → newest_first l.
Proof.
  unfold newest_first.
  induction 1 as [|a l Hl IH Ha]; simpl; constructor; [done|].
  apply Forall_fmap. eapply Forall_impl; [exact Ha|]. done.
Qed.

Lemma createdAt_inj_in (db : list Item) x y :
  NoDup (createdAt <$> db) → x ∈ db → y ∈ db → createdAt x = createdAt y →
  x = y.
Proof.
  induction db as [|z db IH]; [by intros _ ?%elem_of_nil|].
  rewrite fmap_cons, NoDup_cons. intros [Hz Hdb] Hx Hy Heq.
  apply elem_of_cons in Hx as [->|Hx], Hy as [->|Hy]; [done| | |by apply IH].
  - destruct Hz. rewrite Heq. by apply list_elem_of_fmap_2.
  - destruct Hz. rewrite <- Heq. by apply list_elem_of_fmap_2.
Qed.

End tables.

(** Whatever the request, the stack only ever appends to the table, and
    it keeps the title bound and the uniqueness of the ids. *)
Theorem app_handle_keeps env w rq db :
  db `prefix_of` (app_handle env w rq db).2
  ∧ (title_bound db → title_bound (app_handle env w rq db).2)
  ∧ (ids_unique db → ids_unique (app_handle env w rq db).2).
Proof.
  destruct (served_write env w rq db _ (app_handle_served env w rq db))
    as [[-> _] | (t & _ & _ & (m & _ & _ & Ht) & _ & _ & Hf & ->)]; [done|].
  simpl. split; [by apply prefix_app_r|].
  split; intros Hdb; [by apply title_bound_snoc|by apply ids_unique_snoc].
Qed.

(** No two rows of a table reached from the empty one through GETs, POSTs
    and runs of the seed script share an id. *)
Theorem ids_unique_reachable trace : ids_unique (run_all trace).
Proof.
  unfold run_all. assert (ids_unique []) as Hnil by constructor.
  revert Hnil. generalize (@nil Item).
  induction trace as [|step trace IH]; intros db Hdb; [done|].
  simpl. apply IH. by apply run_ids_unique.
Qed.

(** A row created at a time later than every stored one comes first in
    the next listing; behind it come the older rows, newest first.  The
    row is created when the body is accepted, its title holds no U+0000,
    the database answers and the id is unused. *)
Theorem newest_on_top w w' rb t db :
  accepted rb t → storable t →
  db_up w = true → fresh w db → db_up w' = true →
  Forall (λ x, (createdAt x < now w)%Z) db →
  ∃ l, r_get w' (r_post w rb db).2
       = (Resolved (listed (new_item w t :: l)), db ++ [new_item w t])
       ∧ l ≡ₚ db ∧ newest_first l.
Proof.
  intros Ha Hst Hup Hf Hup' Hold.
  rewrite (r_post_accepted w rb t db Ha). unfold await.
  rewrite create_title by done. simpl. rewrite r_get_up by done.
  pose proof (StronglySorted_merge_sort (Prisma.before Prisma.desc)
                (db ++ [new_item w t])) as Hs.
  pose proof (merge_sort_Permutation (Prisma.before Prisma.desc)
                (db ++ [new_item w t])) as Hp.
  destruct (merge_sort _ _) as [|h l].
  { apply Permutation_nil in Hp. by destruct db. }
  assert (h = new_item w t) as ->.
  { assert (h ∈ db ++ [new_item w t]) as Hh by (rewrite <- Hp; by left).
    apply elem_of_app in Hh as [Hh|Hh]; [|by apply list_elem_of_singleton in Hh].
    assert (new_item w t ∈ h :: l) as Hn.
    { rewrite Hp. apply elem_of_app. right. by left. }
    apply elem_of_cons in Hn as [Hn|Hn]; [done|].
    apply StronglySorted_inv in Hs as [_ Hall].
    rewrite Forall_forall in Hall, Hold.
    specialize (Hall _ Hn). specialize (Hold _ Hh).
    unfold Prisma.before in Hall. simpl in Hall. lia. }
  exists l. split; [done|].
  apply StronglySorted_inv in Hs as [Hs _]. split.
  - apply (Permutation_cons_inv (a := new_item w t)).
    by rewrite Hp, Permutation_app_comm.
  - by apply sorted_desc_newest_first.
Qed.

(** When the creation times are pairwise different, the listing does not
    depend on the order in which the rows sit in the table. *)
Theorem listing_order_independent w1 w2 db1 db2 :
  db1 ≡ₚ db2 → NoDup (createdAt <$> db1) →
  db_up w1 = true → db_up w2 = true →
  (r_get w1 db1).1 = (r_get w2 db2).1.
Proof.
  intros Hperm Hnd Hup1 Hup2. rewrite !r_get_up by done. simpl.
  do 2 f_equal.
  apply (StronglySorted_unique_strong (Prisma.before Prisma.desc)).
  - intros x y Hx Hy Hxy Hyx.
    rewrite merge_sort_Permutation in Hx, Hy. rewrite <- Hperm in Hy.
    apply (createdAt_inj_in db1); [done..|].
    unfold Prisma.before in *. simpl in *. lia.
  - apply StronglySorted_merge_sort; apply _.
  - apply StronglySorted_merge_sort; apply _.
  - by rewrite !merge_sort_Permutation.
Qed.


(** Whatever arrives, the whole stack only ever appends to the table,
    and it keeps the title bound and the uniqueness of the ids. *)
Theorem app_request_keeps env w rq db :
  db `prefix_of` (app_request env w rq db).2
  ∧ (title_bound db → title_bound (app_request env w rq db).2)
  ∧ (ids_unique db → ids_unique (app_request env w rq db).2).
Proof.
  destruct (app_request_cases env w rq db)
    as [[_ ->]|[(_ & _ & ->)|[(_ & _ & _ & ->)
        |[(_ & _ & _ & f & _ & ->)|(_ & b & _ & ->)]]]]; simpl; try done.
  destruct (served_write env w (parsed rq b) db _
              (app_handle_served env w (parsed rq b) db))
    as [[-> _] | (t & _ & _ & (m & _ & _ & Ht) & _ & _ & Hf & ->)]; [done|].
  simpl. split; [by apply prefix_app_r|].
  split; intros Hdb; [by apply title_bound_snoc|by apply ids_unique_snoc].
Qed.

(** ** The seed script *)

(** The script exits with 0 exactly when the database answers and with 1
    exactly when it does not; in the latter case the table is untouched.
    An insert is only tried on an empty table, so it cannot fail on the
    primary key. *)
Theorem seed_exit_code w db :
  ((seed w db).1 = 0 ↔ db_up w = true)
  ∧ ((seed w db).1 = 1 ↔ db_up w = false)
  ∧ (db_up w = false → (seed w db).2 = db).
Proof.
  destruct db as [|x db].
  - rewrite seed_empty. destruct (db_up w); simpl; repeat split; done.
  - unfold seed. rewrite main_nonempty by done.
    destruct (db_up w); simpl; repeat split; done.
Qed.

(** What [main] logs tells what it did: "Seeded 1 item" is logged exactly
    when the table was empty and the welcome row was inserted; otherwise
    the line gives the number of rows found and the table is left as it
    was. *)
Theorem main_reports w db msg db' :
  main w db = (Resolved msg, db') →
  db_up w = true
  ∧ ((msg = "Seeded 1 item" ∧ db = [] ∧ db' = [new_item w welcome])
     ∨ (msg = "Items already present: " +:+ pretty (length db)
              +:+ " (no new seed)"
        ∧ msg ≠ "Seeded 1 item" ∧ db ≠ [] ∧ db' = db)).
Proof.
  destruct db as [|x db].
  - rewrite main_empty. destruct (db_up w); [|discriminate].
    intros [= <- <-]. split; [done|]. by left.
  - rewrite main_nonempty by done. destruct (db_up w); [|discriminate].
    intros [= <- <-]. split; [done|]. right. repeat split; done.
Qed.

(** ** The items page against this server *)

Section page.
Import ItemsPage.

Lemma trim_nonblank t : trim t ≠ "" → 1 ≤ String.length t.
Proof. destruct t; [by intros []|simpl; lia]. Qed.

Lemma accepted_body_of t : title_ok t → accepted (body_of t) t.
Proof. intros Ht. exists {[ "title" := JStr t ]}. by rewrite lookup_singleton_eq. Qed.

(** A GET sent through the browser never changes the table. *)
Lemma browser_get_table env w o db :
  (browser_fetch env w o {| fetch_method := GET; fetch_body := None |} db).2
  = db.
Proof.
  unfold browser_fetch. destruct (cors_origin env o); [|done].
  match goal with |- context [app_handle ?e ?w ?r ?d] =>
    pose proof (served_write e w r d _ (app_handle_served e w r d)) as Hs;
    destruct (app_handle e w r d) as [res db'] end.
  simpl in *. destruct Hs as [[-> _] | (t & _ & Hm & _)]; [done|discriminate].
Qed.

(** A GET that is admitted and finds the database gives the listing. *)
Lemma browser_get_listed env w o db :
  cors_origin env o = Resolved true → over_limit w = false → db_up w = true →
  browser_fetch env w o {| fetch_method := GET; fetch_body := None |} db
  = (Answered (listed (merge_sort (Prisma.before Prisma.desc) db)), db).
Proof.
  intros Hc Hl Hup. unfold browser_fetch, app_handle. simpl.
  rewrite Hc, Hl. simpl. by rewrite r_get_up.
Qed.

(** Any other GET gives no 2xx answer. *)
Lemma browser_get_failed env w o db :
  ¬ (cors_origin env o = Resolved true ∧ over_limit w = false ∧ db_up w = true) →
  match (browser_fetch env w o {| fetch_method := GET; fetch_body := None |} db).1 with
  | Threw => True
  | Answered res => ok res = false
  end.
Proof.
  intros Hno. unfold browser_fetch.
  destruct (cors_origin_cases env o) as [Hc|Hc]; rewrite Hc; [|done].
  match goal with |- context [app_handle ?e ?w ?r ?d] =>
    destruct (app_handle_served e w r d)
      as [| | |[Hc' Hl] _ Hup| | | | | |t _ Hm]; simpl in *; try done end.
  destruct Hno. done.
Qed.

Lemma load_facts get st db :
  loading (load get st db).1.1 = false
  ∧ title (load get st db).1.1 = title st
  ∧ Forall no_alert (load get st db).1.2
  ∧ (load get st db).2 = (get {| fetch_method := GET; fetch_body := None |} db).2.
Proof.
  unfold load. destruct (get _ db) as [[|res] db']; simpl.
  - split_and!; try done. by repeat constructor.
  - destruct (ok res); [destruct (res_json res)|]; simpl; split_and!;
      try done; by repeat constructor.
Qed.

(** The answer to the page's POST, when the browser lets it through. *)
Lemma browser_post env w o t db :
  cors_origin env o = Resolved true →
  served env w {| method := POST; origin := o; req_body := body_of t |} db
    (app_handle env w {| method := POST; origin := o; req_body := body_of t |} db)
  ∧ browser_fetch env w o
      {| fetch_method := POST;
         fetch_body := Some (JObj {[ "title" := JStr t ]}) |} db
    = (Answered (app_handle env w {| method := POST; origin := o;
                                     req_body := body_of t |} db).1,
       (app_handle env w {| method := POST; origin := o;
                            req_body := body_of t |} db).2).
Proof.
  intros Hc. split; [apply app_handle_served|].
  unfold browser_fetch. rewrite Hc. simpl. unfold body_of.
  by destruct (app_handle _ _ _ _).
Qed.

Lemma post_unwritten_not_ok env w rq db :
  method rq = POST → (app_handle env w rq db).2 = db →
  ok (app_handle env w rq db).1 = false.
Proof.
  intros Hm. destruct (app_handle_served env w rq db); simpl; try done.
  - congruence.
  - intros Habs. by destruct (snoc_ne _ _ Habs).
Qed.

End page.

Section page_theorems.
Import ItemsPage.

Lemma accepted_body_of_inv t t' : accepted (body_of t) t' → t' = t ∧ title_ok t.
Proof.
  intros (m & [= <-] & Hm & Ht). rewrite lookup_singleton_eq in Hm.
  by injection Hm as ->.
Qed.

(** [load] through the browser never changes the table, always ends with
    the loading flag down and the typed title as it was, and never opens
    an alert box.  When the request is admitted and the database answers,
    the page then holds all rows newest first; in every other case it
    keeps the items it had. *)
Theorem page_load env w o st db :
  (load (browser_fetch env w o) st db).2 = db
  ∧ loading (load (browser_fetch env w o) st db).1.1 = false
  ∧ title (load (browser_fetch env w o) st db).1.1 = title st
  ∧ Forall no_alert (load (browser_fetch env w o) st db).1.2
  ∧ (cors_origin env o = Resolved true → over_limit w = false →
     db_up w = true →
     ∃ l, l ≡ₚ db ∧ newest_first l
          ∧ items (load (browser_fetch env w o) st db).1.1
            = JArr (item_to_js <$> l)
          ∧ (load (browser_fetch env w o) st db).1.2 = [])
  ∧ (¬ (cors_origin env o = Resolved true ∧ over_limit w = false
        ∧ db_up w = true) →
     items (load (browser_fetch env w o) st db).1.1 = items st).
Proof.
  destruct (load_facts (browser_fetch env w o) st db) as (Hl & Ht & Hd & Hdb).
  rewrite browser_get_table in Hdb. split_and!; try done.
  - intros Hc Hlim Hup. unfold load.
    rewrite (browser_get_listed env w o db Hc Hlim Hup). simpl.
    exists (merge_sort (Prisma.before Prisma.desc) db).
    split_and!; [apply merge_sort_Permutation|apply desc_newest_first|done..].
  - intros Hno. pose proof (browser_get_failed env w o db Hno) as Hf.
    unfold load. destruct (browser_fetch env w o _ db) as [[|res] db']; [done|].
    simpl in Hf. by rewrite Hf.
Qed.

(** A title with a character that is no white space, of at most 200
    characters and without U+0000, typed into a page whose origin the
    server admits: when the database answers and the generated id is
    free, the row is stored
    with the title exactly as typed (not trimmed), the input is cleared,
    no dialog is shown, and the page ends up showing the reloaded list. *)
Theorem page_create_success env w w' o st db :
  trim (title st) ≠ "" → String.length (title st) ≤ 200 →
  storable (title st) →
  cors_origin env o = Resolved true →
  over_limit w = false → db_up w = true → fresh w db →
  over_limit w' = false → db_up w' = true →
  ∃ l, create (browser_fetch env w o) (browser_fetch env w' o) st db
       = ({| items := JArr (item_to_js <$> l); title := ""; loading := false |},
          [], db ++ [new_item w (title st)])
       ∧ l ≡ₚ db ++ [new_item w (title st)] ∧ newest_first l.
Proof.
  intros Hnb Hlen Hst Hc Hl Hup Hf Hl' Hup'.
  assert (title_ok (title st)) as Hok by (split; [by apply trim_nonblank|done]).
  exists (merge_sort (Prisma.before Prisma.desc) (db ++ [new_item w (title st)])).
  split; [|split; [apply merge_sort_Permutation|apply desc_newest_first]].
  unfold create. rewrite bool_decide_eq_false_2 by done.
  destruct (browser_post env w o (title st) db Hc) as [_ ->].
  unfold app_handle, itemsRoutes. simpl. rewrite Hc, Hl.
  rewrite (r_post_accepted w _ _ db (accepted_body_of _ Hok)). unfold await.
  rewrite create_title by done. simpl. unfold load.
  by rewrite (browser_get_listed env w' o _ Hc Hl' Hup').
Qed.

(** Whenever [create] changes the table, the title had a character that
    is no white space and 1 to 200 characters in all, exactly one row
    with that very title was appended, the input was cleared and no alert
    box was opened.  In particular a title of white space only is never
    stored through the page. *)
Theorem page_create_writes env w w' o st db :
  (create (browser_fetch env w o) (browser_fetch env w' o) st db).2 ≠ db →
  trim (title st) ≠ "" ∧ title_ok (title st)
  ∧ (create (browser_fetch env w o) (browser_fetch env w' o) st db).2
    = db ++ [new_item w (title st)]
  ∧ title (create (browser_fetch env w o) (browser_fetch env w' o) st db).1.1
    = ""
  ∧ Forall no_alert
      (create (browser_fetch env w o) (browser_fetch env w' o) st db).1.2.
Proof.
  unfold create. case_bool_decide as Hb; [done|].
  destruct (cors_origin_cases env o) as [Hc|Hc].
  2: { unfold browser_fetch at 1. by rewrite Hc. }
  destruct (browser_post env w o (title st) db Hc) as [Hs ->].
  apply served_write in Hs.
  destruct Hs as [[Heq _] | (t & _ & _ & Ht & _ & _ & _ & Hout)].
  - pose proof Heq as Hnok. apply post_unwritten_not_ok in Hnok; [|done].
    rewrite Hnok. simpl. by rewrite Heq.
  - apply accepted_body_of_inv in Ht as [-> Hok]. rewrite Hout. simpl.
    match goal with |- context [load ?g ?s ?d] =>
      destruct (load_facts g s d) as (_ & Htt & Hd & Hdb) end.
    rewrite browser_get_table in Hdb. intros _. by split_and!.
Qed.

(** With a non-blank title and an admitted origin, whenever the POST
    stores nothing -- the title is too long or holds U+0000, the rate
    limiter stepped in, the database is down or the id is taken -- the
    page shows the one
    alert "Validation failed" and stays exactly as it was, typed title
    included.  When the browser blocks the request instead, the alert is
    "Failed to create item". *)
Theorem page_create_failure env w w' o st db :
  trim (title st) ≠ "" →
  (cors_origin env o = Resolved true →
   (create (browser_fetch env w o) (browser_fetch env w' o) st db).2 = db →
   create (browser_fetch env w o) (browser_fetch env w' o) st db
   = (st, [alert "Validation failed"], db))
  ∧ (cors_origin env o ≠ Resolved true →
     create (browser_fetch env w o) (browser_fetch env w' o) st db
     = (st, [console_error "Failed to create item:";
             alert "Failed to create item"], db)).
Proof.
  intros Hnb. unfold create. rewrite bool_decide_eq_false_2 by done. split.
  - intros Hc. destruct (browser_post env w o (title st) db Hc) as [Hs ->].
    destruct (ok _) eqn:Hok.
    + match goal with |- context [load ?g ?s ?d] =>
        destruct (load_facts g s d) as (_ & _ & _ & Hdb) end.
      rewrite browser_get_table in Hdb. rewrite Hdb. intros Heq.
      apply post_unwritten_not_ok in Heq; [|done]. congruence.
    + simpl. by intros ->.
  - intros Hc. destruct (cors_origin_cases env o) as [Hc'|Hc']; [done|].
    unfold browser_fetch at 1. by rewrite Hc'.
Qed.

End page_theorems.

(** ** Instances of the further properties *)

Lemma r_post_400_iff_witness :
  ∃ error, r_post w_down (Some (JArr [JStr welcome])) sample_table
           = (Resolved (bad_request error), sample_table).
Proof.
  apply (r_post_400_iff w_down (Some (JArr [JStr welcome])) sample_table).
  intros (t & m & Hm & _). discriminate.
Defined.

Lemma r_post_error_shape_witness :
  sample_table = sample_table
  ∧ ∃ msg,
      ((∃ m, Some (JObj (∅ : gmap string jsvalue)) = Some (JObj m))
       ∧ rejected_title "Required" = rejected_title msg)
      ∨ ((∀ m, Some (JObj (∅ : gmap string jsvalue)) ≠ Some (JObj m))
         ∧ rejected_title "Required"
           = {| status := 400; body := json (JObj (node [msg])) |}).
Proof.
  apply (r_post_error_shape w_a (Some (JObj ∅)) sample_table
           (rejected_title "Required") sample_table).
  - vm_compute. reflexivity.
  - reflexivity.
Defined.

Lemma app_request_writes_iff_witness :
  (app_request env_default w_d
     (arriving (routed POST) (json_entity (JObj {[ "title" := JStr welcome ]})))
     sample_table).2
  ≠ sample_table.
Proof.
  destruct (app_request_writes_iff env_default w_d
              (arriving (routed POST)
                 (json_entity (JObj {[ "title" := JStr welcome ]})))
              sample_table) as ([_ Hwrites] & _).
  apply Hwrites. split; [reflexivity|].
  exists (Some (JObj {[ "title" := JStr welcome ]})), welcome. split_and!.
  - split_and!; reflexivity.
  - exists {[ "title" := JStr welcome ]}. split_and!.
    + reflexivity.
    + vm_compute. reflexivity.
    + unfold title_ok, welcome. simpl. lia.
  - reflexivity.
  - reflexivity.
  - by_evaluation.
Defined.



Lemma app_handle_keeps_witness :
  ids_unique (app_handle env_default w_d (local_post welcome) sample_table).2.
Proof.
  destruct (app_handle_keeps env_default w_d (local_post welcome) sample_table)
    as (_ & _ & Hids).
  apply Hids. unfold ids_unique. refine (bool_decide_unpack _ _).
  vm_compute. exact I.
Defined.

Lemma newest_on_top_witness :
  ∃ l, r_get w_a (r_post w_d (body_of welcome) sample_table).2
       = (Resolved (listed (new_item w_d welcome :: l)),
          sample_table ++ [new_item w_d welcome])
       ∧ l ≡ₚ sample_table ∧ newest_first l.
Proof.
  apply (newest_on_top w_d w_a (body_of welcome) welcome sample_table).
  - exists {[ "title" := JStr welcome ]}. split_and!.
    + reflexivity.
    + vm_compute. reflexivity.
    + unfold title_ok, welcome. simpl. lia.
  - reflexivity.
  - reflexivity.
  - by_evaluation.
  - reflexivity.
  - unfold sample_table, w_d. simpl. repeat constructor; simpl; lia.
Defined.

Lemma listing_order_independent_witness :
  (r_get w_a sample_table).1 = (r_get w_b (reverse sample_table)).1.
Proof.
  apply (listing_order_independent w_a w_b sample_table (reverse sample_table)).
  - symmetry. apply reverse_Permutation.
  - refine (bool_decide_unpack _ _). vm_compute. exact I.
  - reflexivity.
  - reflexivity.
Defined.

Lemma seed_exit_code_witness : (seed w_down sample_table).2 = sample_table.
Proof.
  destruct (seed_exit_code w_down sample_table) as (_ & _ & Hkept).
  apply Hkept. reflexivity.
Defined.

Lemma main_reports_witness :
  db_up w_a = true
  ∧ (("Seeded 1 item" = "Seeded 1 item" ∧ @nil Item = []
      ∧ [new_item w_a welcome] = [new_item w_a welcome])
     ∨ ("Seeded 1 item"
        = "Items already present: " +:+ pretty (length (@nil Item))
          +:+ " (no new seed)"
        ∧ "Seeded 1 item" ≠ "Seeded 1 item" ∧ @nil Item ≠ []
        ∧ [new_item w_a welcome] = [])).
Proof.
  apply (main_reports w_a [] "Seeded 1 item" [new_item w_a welcome]).
  vm_compute. reflexivity.
Defined.

Lemma page_load_witness :
  ∃ l, l ≡ₚ sample_table ∧ newest_first l
       ∧ ItemsPage.items
           (ItemsPage.load
              (browser_fetch env_default w_a (Some "http://localhost:3000"))
              (page_typed "") sample_table).1.1
         = JArr (item_to_js <$> l)
       ∧ (ItemsPage.load
            (browser_fetch env_default w_a (Some "http://localhost:3000"))
            (page_typed "") sample_table).1.2 = [].
Proof.
  destruct (page_load env_default w_a (Some "http://localhost:3000")
              (page_typed "") sample_table) as (_ & _ & _ & _ & Hok & _).
  apply Hok; reflexivity.
Defined.

Lemma page_create_success_witness :
  ∃ l, ItemsPage.create
         (browser_fetch env_default w_d (Some "http://localhost:3000"))
         (browser_fetch env_default w_a (Some "http://localhost:3000"))
         (page_typed " buy milk ") sample_table
       = ({| ItemsPage.items := JArr (item_to_js <$> l);
             ItemsPage.title := ""; ItemsPage.loading := false |},
          [], sample_table ++ [new_item w_d " buy milk "])
       ∧ l ≡ₚ sample_table ++ [new_item w_d " buy milk "] ∧ newest_first l.
Proof.
  apply (page_create_success env_default w_d w_a (Some "http://localhost:3000")
           (page_typed " buy milk ") sample_table).
  - by_evaluation.
  - simpl. lia.
  - reflexivity.
  - reflexivity.
  - reflexivity.
  - reflexivity.
  - by_evaluation.
  - reflexivity.
  - reflexivity.
Defined.

Lemma page_create_writes_witness :
  ItemsPage.title
    (ItemsPage.create
       (browser_fetch env_default w_d (Some "http://localhost:3000"))
       (browser_fetch env_default w_down (Some "http://localhost:3000"))
       (page_typed "x") sample_table).1.1 = "".
Proof.
  destruct (page_create_writes env_default w_d w_down
              (Some "http://localhost:3000") (page_typed "x") sample_table)
    as (_ & _ & _ & Hcleared & _).
  - vm_compute. discriminate.
  - exact Hcleared.
Defined.

Lemma page_create_failure_witness :
  ItemsPage.create
    (browser_fetch env_default w_down (Some "http://localhost:3000"))
    (browser_fetch env_default w_a (Some "http://localhost:3000"))
    (page_typed "x") sample_table
  = (page_typed "x", [ItemsPage.alert "Validation failed"], sample_table).
Proof.
  destruct (page_create_failure env_default w_down w_a
              (Some "http://localhost:3000") (page_typed "x") sample_table)
    as [Hrefused _].
  - by_evaluation.
  - apply Hrefused.
    + reflexivity.
    + vm_compute. reflexivity.
Defined.


Lemma app_request_keeps_witness :
  ids_unique
    (app_request env_default w_d
       (arriving (routed POST) (json_entity (JObj {[ "title" := JStr welcome ]})))
       sample_table).2.
Proof.
  destruct (app_request_keeps env_default w_d
              (arriving (routed POST)
                 (json_entity (JObj {[ "title" := JStr welcome ]})))
              sample_table) as (_ & _ & Hids).
  apply Hids. unfold ids_unique. refine (bool_decide_unpack _ _).
  vm_compute. exact I.
Defined.
